(** * MmapDict: the memory-mapped, append-only key/value store of
    [odin/fuel/utils.py]

    The store keeps one file: an 8-byte magic marker, two 48-character
    decimal header fields (end of the data region, length of the pickled
    index), the data region, and the pickled index.  This development embeds
    the class [MmapDict] as state-passing functions over a record that holds
    the object's attributes and the bytes of its file, and proves the
    properties of the store's specification against that embedding. *)

From Stdlib Require Import ZArith List Ascii String Lia DecimalZ DecimalPos.
From stdpp Require Import base option list gmap strings.

Local Open Scope Z_scope.

(** ** Byte strings

    The code is Python 2: [str] is a byte string, used for keys, for the
    marshalled values and for the file's contents. *)

Definition bytes := list ascii.

Definition blen (b : bytes) : Z := Z.of_nat (length b).

Definition of_str (s : string) : bytes := list_ascii_of_string s.

(** ** The builtins [int(s)] and ['%48d' % n] *)

Module PyInt.

Fixpoint uint_chars (d : Decimal.uint) : bytes :=
  match d with
  | Decimal.Nil => []
  | Decimal.D0 d => "0"%char :: uint_chars d
  | Decimal.D1 d => "1"%char :: uint_chars d
  | Decimal.D2 d => "2"%char :: uint_chars d
  | Decimal.D3 d => "3"%char :: uint_chars d
  | Decimal.D4 d => "4"%char :: uint_chars d
  | Decimal.D5 d => "5"%char :: uint_chars d
  | Decimal.D6 d => "6"%char :: uint_chars d
  | Decimal.D7 d => "7"%char :: uint_chars d
  | Decimal.D8 d => "8"%char :: uint_chars d
  | Decimal.D9 d => "9"%char :: uint_chars d
  end.

Definition digit_of (c : ascii) : option (Decimal.uint -> Decimal.uint) :=
  if Ascii.eqb c "0" then Some Decimal.D0
  else if Ascii.eqb c "1" then Some Decimal.D1
  else if Ascii.eqb c "2" then Some Decimal.D2
  else if Ascii.eqb c "3" then Some Decimal.D3
  else if Ascii.eqb c "4" then Some Decimal.D4
  else if Ascii.eqb c "5" then Some Decimal.D5
  else if Ascii.eqb c "6" then Some Decimal.D6
  else if Ascii.eqb c "7" then Some Decimal.D7
  else if Ascii.eqb c "8" then Some Decimal.D8
  else if Ascii.eqb c "9" then Some Decimal.D9
  else None.

Fixpoint chars_uint (s : bytes) : option Decimal.uint :=
  match s with
  | [] => Some Decimal.Nil
  | c :: s' =>
      match digit_of c, chars_uint s' with
      | Some D, Some d => Some (D d)
      | _, _ => None
      end
  end.

(** [str(n)] for an integer: sign and decimal digits. *)
Definition str_of_int (z : Z) : bytes :=
  match Z.to_int z with
  | Decimal.Pos d => uint_chars d
  | Decimal.Neg d => "-"%char :: uint_chars d
  end.

(** ['%<width>d' % z]: right-justified in a field of at least [width]
    characters, padded with spaces on the left; a longer number is not cut. *)
Definition format_d (width : nat) (z : Z) : bytes :=
  let ds := str_of_int z in
  replicate (width - length ds) " "%char ++ ds.

(** C [isspace]: space, and the controls 9 to 13. *)
Definition is_space (c : ascii) : bool :=
  let n := nat_of_ascii c in
  Nat.eqb n 32 || (Nat.leb 9 n && Nat.leb n 13).

Fixpoint lstrip (s : bytes) : bytes :=
  match s with
  | c :: s' => if is_space c then lstrip s' else s
  | [] => []
  end.

Definition strip (s : bytes) : bytes := rev (lstrip (rev (lstrip s))).

Definition digits_int (ds : bytes) : option Decimal.uint :=
  match ds with
  | [] => None
  | _ => chars_uint ds
  end.

(** An integer literal: an optional sign and at least one decimal digit. *)
Definition literal (s : bytes) : option Z :=
  match s with
  | [] => None
  | c :: ds =>
      if Ascii.eqb c "-" then
        d ← digits_int ds; Some (Z.of_int (Decimal.Neg d))
      else if Ascii.eqb c "+" then
        d ← digits_int ds; Some (Z.of_int (Decimal.Pos d))
      else
        d ← digits_int (c :: ds); Some (Z.of_int (Decimal.Pos d))
  end.

(** [int(s)] on a byte string: surrounding whitespace is dropped and a
    literal is left; [None] stands for the [ValueError] of anything else. *)
Definition int (s : bytes) : option Z := literal (strip s).

End PyInt.

(** ** Files

    A file is the list of its bytes.  The code reads and writes through a
    handle with a position; the embedding passes the position to each call. *)

Module File.

(** [seek(pos); read(n)]: at most [n] bytes from [pos], fewer at the end of
    the file; a negative [n] reads to the end. *)
Definition read (pos n : Z) (f : bytes) : bytes :=
  let rest := drop (Z.to_nat pos) f in
  if n <? 0 then rest else take (Z.to_nat n) rest.

(** [seek(pos); write(data)]: the bytes from [pos] on are replaced, the file
    grows when the write passes its end, and a gap before [pos] is filled
    with zero bytes.  Writing no bytes leaves the file as it is. *)
Definition write (pos : Z) (data : bytes) (f : bytes) : bytes :=
  match data with
  | [] => f
  | _ =>
      let p := Z.to_nat pos in
      take p f ++ replicate (p - length f) zero ++ data
        ++ drop (p + length data) f
  end.

(** A run of writes, each at its own position, in program order. *)
Definition write_all (ws : list (Z * bytes)) (f : bytes) : bytes :=
  fold_left (fun f w => write (fst w) (snd w) f) ws f.

End File.

(** ** [collections.OrderedDict] with string keys

    An association list in insertion order; the store never holds a key
    twice, and [set] keeps the position of a key that is already there. *)

Module OrderedDict.

Section Ops.
Context {V : Type}.

Fixpoint get (k : string) (d : list (string * V)) : option V :=
  match d with
  | [] => None
  | (k', v) :: d' => if decide (k = k') then Some v else get k d'
  end.

(** [k in d] *)
Definition mem (k : string) (d : list (string * V)) : bool :=
  match get k d with Some _ => true | None => false end.

(** [d[k] = v] *)
Fixpoint set (k : string) (v : V) (d : list (string * V))
    : list (string * V) :=
  match d with
  | [] => [(k, v)]
  | (k', v') :: d' =>
      if decide (k = k') then (k, v) :: d' else (k', v') :: set k v d'
  end.

(** [del d[k]] on a key that is there: a dict holds a key once, and no
    entry of that key is left. *)
Fixpoint del (k : string) (d : list (string * V)) : list (string * V) :=
  match d with
  | [] => []
  | (k', v') :: d' =>
      if decide (k = k') then del k d' else (k', v') :: del k d'
  end.

Definition keys (d : list (string * V)) : list string := map fst d.
End Ops.

End OrderedDict.

(** ** The serializers

    [marshal] encodes the values and [cPickle] the index.  Both are modules
    of the Python runtime, not of this repository, so the store is embedded
    over any pair of codecs.  [marshal.dumps] refuses a value it cannot
    encode, and both [loads] refuse bytes that are no encoding. *)

(** One index entry: [(start, size)] of a record's bytes in the file. *)
Definition entry := (Z * Z)%type.

Class Serializers := {
  value : Type;
  marshal_dumps : value -> option bytes;
  marshal_loads : bytes -> option value;
  pickle_dumps : list (string * entry) -> bytes;
  pickle_loads : bytes -> option (list (string * entry))
}.

(** What the store's properties need of the index codec. *)
Class PickleLaws `{Serializers} : Prop :=
  pickle_roundtrip : forall d, pickle_loads (pickle_dumps d) = Some d.

(** ** Exceptions

    The code raises plain [Exception]s told apart by their message, and lets
    the runtime's own exceptions through; the constructors carry the names
    the specification gives them. *)

Inductive exn :=
| FormatError        (* 'Given file is not in the right format for MmapDict.' *)
| NotFoundError      (* 'File at path:... does not exist (read-only mode).' *)
| ReadOnlyError      (* 'Cannot flush to path:... in read-only mode' *)
| DuplicateKeyError  (* 'This dictionary do not support update.' *)
| KeyNotFoundError   (* KeyError of a dict lookup or del *)
| ValueKindError     (* marshal.dumps: unmarshallable object *)
| ValueError         (* int() of a bad literal, a closed or out-of-range mmap *)
| IOError            (* seek to a negative offset *)
| LoadError.         (* marshal.loads or cPickle.loads on other bytes *)

(** A computation that may raise: the first exception stops it. *)
#[global] Instance exn_bind : MBind (sum exn) := λ A B k r,
  match r with inl e => inl e | inr a => k a end.

(** ** The store *)

Definition HEADER : bytes := of_str "mmapdict".
Definition SIZE_BYTES : nat := 48.

(** The attributes of a [MmapDict] object, and [disk], the bytes of the file
    at [_path].  [_mmap] is the mapping of the whole file as it was when it
    was mapped, [None] once the mapping is closed. *)
Record MmapDict := mkMmapDict {
  read_only : bool;
  _max_position : Z;
  _dict : list (string * entry);
  _write_value : bytes;
  _new_dict : gmap string bytes;
  _mmap : option bytes;
  disk : bytes
}.

(** The result of a method call: the returned value or the exception, and
    the object as the call left it. *)
Inductive outcome (A : Type) :=
| Ok (a : A) (st : MmapDict)
| Raise (e : exn) (st : MmapDict).
Arguments Ok {A} a st.
Arguments Raise {A} e st.

Definition state_of {A} (o : outcome A) : MmapDict :=
  match o with Ok _ st => st | Raise _ st => st end.

Section Store.
Context `{Serializers}.

(** The two header fields and the index blob that [__init] reads from an
    existing file: [(max_position, dict_size, index)]. *)
Definition read_header (f : bytes) : exn + (Z * Z * list (string * entry)) :=
  if negb (bool_decide (File.read 0 (blen HEADER) f = HEADER))
  then inl FormatError
  else
    match PyInt.int (File.read (blen HEADER) (Z.of_nat SIZE_BYTES) f) with
    | None => inl ValueError
    | Some max_position =>
        match PyInt.int (File.read (blen HEADER + Z.of_nat SIZE_BYTES)
                                   (Z.of_nat SIZE_BYTES) f) with
        | None => inl ValueError
        | Some dict_size =>
            if max_position <? 0 then inl IOError
            else
              match pickle_loads (File.read max_position dict_size f) with
              | None => inl LoadError
              | Some d => inr (max_position, dict_size, d)
              end
        end
    end.

(** The file [__init] writes when there is none. *)
Definition new_file : bytes :=
  let max_position := blen HEADER + Z.of_nat SIZE_BYTES * 2 in
  let blob := pickle_dumps [] in
  HEADER ++ PyInt.format_d SIZE_BYTES max_position
         ++ PyInt.format_d SIZE_BYTES (blen blob) ++ blob.

(** The object of a store that was just created. *)
Definition create (ro : bool) : MmapDict :=
  {| read_only := ro;
     _max_position := blen HEADER + Z.of_nat SIZE_BYTES * 2;
     _dict := []; _write_value := []; _new_dict := ∅;
     _mmap := Some new_file; disk := new_file |}.

(** [MmapDict(path, read_only)]; [file] is the content of the file at
    [path], [None] when there is no such file. *)
Definition init (file : option bytes) (ro : bool) : exn + MmapDict :=
  match file with
  | Some (c :: f') =>
      let f := c :: f' in
      match read_header f with
      | inl e => inl e
      | inr (max_position, _, d) =>
          inr {| read_only := ro; _max_position := max_position;
                 _dict := d; _write_value := []; _new_dict := ∅;
                 _mmap := Some f; disk := f |}
      end
  | _ =>
      if ro then inl NotFoundError else inr (create ro)
  end.

(** The writes of [flush], in program order: each with the position the
    handle has when it is made.  [old_position] is the end-of-data offset
    read back from the file's header. *)
Definition flush_writes (st : MmapDict) (old_position : Z)
    : list (Z * bytes) :=
  let hwm := PyInt.format_d SIZE_BYTES (_max_position st) in
  let blob := pickle_dumps (_dict st) in
  let len := PyInt.format_d SIZE_BYTES (blen blob) in
  [ (blen HEADER, hwm);
    (blen HEADER + blen hwm, len);
    (old_position, _write_value st);
    (old_position + blen (_write_value st), blob) ].

Definition with_closed_mmap (st : MmapDict) (f : bytes) : MmapDict :=
  {| read_only := read_only st; _max_position := _max_position st;
     _dict := _dict st; _write_value := _write_value st;
     _new_dict := _new_dict st; _mmap := None; disk := f |}.

Definition flush (st : MmapDict) : outcome unit :=
  if read_only st then Raise ReadOnlyError st
  else
    match _mmap st with
    | None => Raise ValueError st
    | Some _ =>
        match PyInt.int (File.read (blen HEADER) (Z.of_nat SIZE_BYTES)
                                   (disk st)) with
        | None => Raise ValueError (with_closed_mmap st (disk st))
        | Some old_position =>
            let ws := flush_writes st old_position in
            if old_position <? 0
            then Raise IOError
                   (with_closed_mmap st (File.write_all (take 2 ws) (disk st)))
            else
              let f := File.write_all ws (disk st) in
              Ok tt {| read_only := read_only st;
                       _max_position :=
                         old_position + blen (_write_value st);
                       _dict := _dict st; _write_value := [];
                       _new_dict := ∅; _mmap := Some f; disk := f |}
        end
    end.

Definition close (st : MmapDict) : outcome unit :=
  match (if read_only st then Ok tt st else flush st) with
  | Raise e st' => Raise e st'
  | Ok _ st' => Ok tt (with_closed_mmap st' (disk st'))
  end.

(** The body of [__setitem__] once the value is marshalled into [b]: the
    index entry at the current end, the end moved on, the bytes appended to
    the write buffer and kept in [_new_dict]. *)
Definition buffered (st : MmapDict) (key : string) (b : bytes) : MmapDict :=
  {| read_only := read_only st;
     _max_position := _max_position st + blen b;
     _dict := OrderedDict.set key (_max_position st, blen b) (_dict st);
     _write_value := _write_value st ++ b;
     _new_dict := <[key := b]> (_new_dict st);
     _mmap := _mmap st; disk := disk st |}.

Definition setitem (st : MmapDict) (key : string) (v : value)
    : outcome unit :=
  if OrderedDict.mem key (_dict st) then Raise DuplicateKeyError st
  else
    match marshal_dumps v with
    | None => Raise ValueKindError st
    | Some b =>
        let st1 := buffered st key b in
        if 48000 <? blen (_write_value st1) then flush st1 else Ok tt st1
    end.

(** [self._mmap.seek(start); self._mmap.read(size)] *)
Definition mmap_read (st : MmapDict) (start size : Z) : exn + bytes :=
  match _mmap st with
  | None => inl ValueError
  | Some m =>
      if (start <? 0) || (blen m <? start) then inl ValueError
      else inr (File.read start size m)
  end.

Definition loads (b : bytes) : exn + value :=
  match marshal_loads b with Some v => inr v | None => inl LoadError end.

Definition of_result {A} (st : MmapDict) (r : exn + A) : outcome A :=
  match r with inl e => Raise e st | inr a => Ok a st end.

Definition getitem (st : MmapDict) (key : string) : outcome value :=
  match _new_dict st !! key with
  | Some b => of_result st (loads b)
  | None =>
      match OrderedDict.get key (_dict st) with
      | None => Raise KeyNotFoundError st
      | Some (start, size) =>
          of_result st (mmap_read st start size ≫= loads)
      end
  end.

Definition contains (st : MmapDict) (key : string) : bool :=
  OrderedDict.mem key (_dict st).

Definition len (st : MmapDict) : nat := length (_dict st).

Definition delitem (st : MmapDict) (key : string) : outcome unit :=
  if OrderedDict.mem key (_dict st)
  then Ok tt {| read_only := read_only st;
                _max_position := _max_position st;
                _dict := OrderedDict.del key (_dict st);
                _write_value := _write_value st;
                _new_dict := _new_dict st;
                _mmap := _mmap st; disk := disk st |}
  else Raise KeyNotFoundError st.

(** [keys(shuffle=False)] *)
Definition keys (st : MmapDict) : list string :=
  OrderedDict.keys (_dict st).

(** [iteritems(shuffle=False)], run to its end: the pairs it yields, or
    the exception that stops it. *)
Fixpoint iteritems_from (st : MmapDict) (it : list (string * entry))
    : exn + list (string * value) :=
  match it with
  | [] => inr []
  | (key, (start, size)) :: it' =>
      b ← match _new_dict st !! key with
           | Some b => inr b
           | None => mmap_read st start size
           end;
      v ← loads b;
      rest ← iteritems_from st it';
      inr ((key, v) :: rest)
  end.

Definition iteritems (st : MmapDict) : exn + list (string * value) :=
  iteritems_from st (_dict st).

End Store.

(** ** Runs of operations *)

Section Runs.
Context `{Serializers}.

Inductive op :=
| Put (key : string) (v : value)
| Get (key : string)
| Remove (key : string)
| Flush
| Close.

(** The object after one call, whether it returned or raised. *)
Definition exec (o : op) (st : MmapDict) : MmapDict :=
  match o with
  | Put key v => state_of (setitem st key v)
  | Get key => state_of (getitem st key)
  | Remove key => state_of (delitem st key)
  | Flush => state_of (flush st)
  | Close => state_of (close st)
  end.

Definition run (ops : list op) (st : MmapDict) : MmapDict :=
  fold_left (fun st o => exec o st) ops st.

Definition is_remove (o : op) : bool :=
  match o with Remove _ => true | _ => false end.

(** A call that leaves the pending entry of [k] alone: it is no flush, it
    does not fill the write buffer past the threshold that flushes, and it
    does not remove [k]. *)
Definition keeps_pending (k : string) (st : MmapDict) (o : op) : Prop :=
  match o with
  | Put _ v =>
      forall b, marshal_dumps v = Some b ->
                blen (_write_value st ++ b) <= 48000
  | Get _ => True
  | Remove k' => k' <> k
  | Flush | Close => False
  end.

Fixpoint keeps_pending_along (k : string) (ops : list op) (st : MmapDict)
    : Prop :=
  match ops with
  | [] => True
  | o :: ops' =>
      keeps_pending k st o /\ keeps_pending_along k ops' (exec o st)
  end.

End Runs.

(** ** Invariants of the store *)

Section Invariants.
Context `{Serializers}.

(** A number fits a header field when its decimal form takes no more than
    the 48 characters of the field. *)
Definition fits_field (z : Z) : Prop :=
  length (PyInt.format_d SIZE_BYTES z) = SIZE_BYTES.

(** The size of the fixed header: marker and two fields. *)
Definition header_size : Z := blen HEADER + Z.of_nat SIZE_BYTES * 2.

(** The end-of-data offset of the file: [_max_position] counts the buffered
    bytes too. *)
Definition disk_hwm (st : MmapDict) : Z :=
  _max_position st - blen (_write_value st).

(** The data region of a file whose end-of-data offset is [hwm]: the bytes
    at the offsets from the end of the header up to [hwm]. *)
Definition data_region (hwm : Z) (f : bytes) : bytes :=
  take (Z.to_nat (hwm - header_size)) (drop (Z.to_nat header_size) f).

(** What an operation may do to the end-of-data offsets and to the data
    region: the offsets do not go down, and the bytes of the old data region
    are where they were. *)
Definition grows (st st' : MmapDict) : Prop :=
  _max_position st <= _max_position st'
  /\ disk_hwm st <= disk_hwm st'
  /\ data_region (disk_hwm st) (disk st')
     = data_region (disk_hwm st) (disk st).

(** The two header fields as a reader finds them. *)
Definition header_fields (f : bytes) : option Z * option Z :=
  (PyInt.int (File.read (blen HEADER) (Z.of_nat SIZE_BYTES) f),
   PyInt.int (File.read (blen HEADER + Z.of_nat SIZE_BYTES)
                        (Z.of_nat SIZE_BYTES) f)).

(** The index a reopening of the file would load. *)
Definition persisted_index (f : bytes) : option (list (string * entry)) :=
  match read_header f with
  | inr (_, _, d) => Some d
  | inl _ => None
  end.

(** The object and its file agree: the marker is there, the first header
    field holds the end-of-data offset, which lies between the header and
    the end of the file, and an open mapping shows the file. *)
Record wf (st : MmapDict) : Prop := {
  wf_magic : File.read 0 (blen HEADER) (disk st) = HEADER;
  wf_hwm : File.read (blen HEADER) (Z.of_nat SIZE_BYTES) (disk st)
           = PyInt.format_d SIZE_BYTES (disk_hwm st);
  wf_lo : header_size <= disk_hwm st;
  wf_hi : disk_hwm st <= blen (disk st);
  wf_mmap : forall m, _mmap st = Some m -> m = disk st
}.

(** The file a flush leaves, from the parts of the file it found: the data
    region [data] and what followed it, [tail]. *)
Definition flushed (st : MmapDict) (data tail : bytes) : bytes :=
  let blob := pickle_dumps (_dict st) in
  HEADER ++ PyInt.format_d SIZE_BYTES (_max_position st)
         ++ PyInt.format_d SIZE_BYTES (blen blob)
         ++ data ++ _write_value st ++ blob
         ++ drop (length blob) (drop (length (_write_value st)) tail).

(** The object a flush leaves when it has written the file [f]. *)
Definition after_flush (st : MmapDict) (f : bytes) : MmapDict :=
  {| read_only := read_only st; _max_position := _max_position st;
     _dict := _dict st; _write_value := []; _new_dict := ∅;
     _mmap := Some f; disk := f |}.

(** The file when a flush is cut off after [n] of its writes. *)
Definition cut_flush (n : nat) (st : MmapDict) : bytes :=
  File.write_all (take n (flush_writes st (disk_hwm st))) (disk st).

(** The file holds the in-memory index: the second header field is the
    length of its encoding, and the encoding sits at the end of the data. *)
Definition synced (st : MmapDict) : Prop :=
  let blob := pickle_dumps (_dict st) in
  File.read (blen HEADER + Z.of_nat SIZE_BYTES) (Z.of_nat SIZE_BYTES)
            (disk st)
  = PyInt.format_d SIZE_BYTES (blen blob)
  /\ File.read (disk_hwm st) (blen blob) (disk st) = blob.

(** Nothing waits for a flush. *)
Definition nothing_pending (st : MmapDict) : Prop :=
  _write_value st = [] /\ _new_dict st = ∅.

(** A key of the pending overlay. *)
Definition pending (st : MmapDict) (k : string) : Prop :=
  is_Some (_new_dict st !! k).

(** The index persisted in the file can be read, and shares no key with
    the pending overlay. *)
Definition disjoint_layers (st : MmapDict) : Prop :=
  exists D, persisted_index (disk st) = Some D
    /\ forall k, k ∈ OrderedDict.keys D -> ~ pending st k.

(** A put that [__setitem__] accepts (the key is not in [_dict] and the
    value can be serialized) for a key that is in the persisted index: a key
    that was flushed and then removed is put again. *)
Definition reput (st : MmapDict) (o : op) : bool :=
  match o with
  | Put k v =>
      negb (contains st k)
      && match marshal_dumps v with Some _ => true | None => false end
      && match persisted_index (disk st) with
         | Some D => OrderedDict.mem k D
         | None => false
         end
  | _ => false
  end.

Fixpoint no_reput_along (ops : list op) (st : MmapDict) : bool :=
  match ops with
  | [] => true
  | o :: ops' => negb (reput st o) && no_reput_along ops' (exec o st)
  end.

(** Every key of the pending overlay is a key of the index: no key was
    removed while it was pending. *)
Definition overlay_in_index (st : MmapDict) : Prop :=
  forall k, pending st k -> contains st k = true.

(** A removal of a key that is pending. *)
Definition removes_pending (st : MmapDict) (o : op) : bool :=
  match o with
  | Remove k =>
      match _new_dict st !! k with Some _ => true | None => false end
  | _ => false
  end.

Fixpoint no_pending_removed (ops : list op) (st : MmapDict) : bool :=
  match ops with
  | [] => true
  | o :: ops' =>
      negb (removes_pending st o) && no_pending_removed ops' (exec o st)
  end.

(** What a flush of this object writes into the header fits its fields. *)
Definition in_budget (st : MmapDict) : Prop :=
  fits_field (_max_position st)
  /\ fits_field (blen (pickle_dumps (_dict st))).

(** Every state of a run stays in budget. *)
Fixpoint budget_along (ops : list op) (st : MmapDict) : Prop :=
  match ops with
  | [] => True
  | o :: ops' => in_budget (exec o st) /\ budget_along ops' (exec o st)
  end.

End Invariants.

(** ** More of the class, and what its index keeps *)

Section MoreCalls.
Context `{Serializers}.

(** [clear()]: [self._dict.clear()] and nothing else. *)
Definition clear (st : MmapDict) : outcome unit :=
  Ok tt {| read_only := read_only st; _max_position := _max_position st;
           _dict := []; _write_value := _write_value st;
           _new_dict := _new_dict st; _mmap := _mmap st; disk := disk st |}.

(** What a call returned or raised, without the object. *)
Definition result_of {A} (o : outcome A) : exn + A :=
  match o with Ok a _ => inr a | Raise e _ => inl e end.

(** The same object with another [read_only] flag. *)
Definition with_mode (ro : bool) (st : MmapDict) : MmapDict :=
  {| read_only := ro; _max_position := _max_position st;
     _dict := _dict st; _write_value := _write_value st;
     _new_dict := _new_dict st; _mmap := _mmap st; disk := disk st |}.

(** The object with its mapping open again on its file. *)
Definition with_open_mmap (st : MmapDict) : MmapDict :=
  {| read_only := read_only st; _max_position := _max_position st;
     _dict := _dict st; _write_value := _write_value st;
     _new_dict := _new_dict st; _mmap := Some (disk st); disk := disk st |}.

(** The entries of an index in its order: each begins at or after the end
    of the one before it, the first at or after [lo], and no size is
    negative. *)
Fixpoint chained (lo : Z) (d : list (string * entry)) : Prop :=
  match d with
  | [] => True
  | (_, (start, size)) :: d' =>
      lo <= start /\ 0 <= size /\ chained (start + size) d'
  end.

(** Where the last entry ends. *)
Fixpoint chain_end (lo : Z) (d : list (string * entry)) : Z :=
  match d with
  | [] => lo
  | (_, (start, size)) :: d' => chain_end (start + size) d'
  end.

(** Each entry of the index addresses the bytes of its record: those of a
    key in the pending overlay lie in the write buffer, which will be
    written at the end of the data, and the others lie in the data region
    of the file. *)
Definition pending_ok (st : MmapDict) : Prop :=
  forall k start size,
    OrderedDict.get k (_dict st) = Some (start, size) ->
    match _new_dict st !! k with
    | Some b =>
        disk_hwm st <= start /\ start + size <= _max_position st
        /\ size = blen b
        /\ File.read (start - disk_hwm st) size (_write_value st) = b
    | None => start + size <= disk_hwm st
    end.

(** The invariant of a store in use. *)
Record sound (st : MmapDict) : Prop := {
  sound_wf : wf st;
  sound_keys : NoDup (OrderedDict.keys (_dict st));
  sound_chain : chained header_size (_dict st);
  sound_end : chain_end header_size (_dict st) <= _max_position st;
  sound_pending : pending_ok st
}.

(** A call that neither removes [k] nor closes the store. *)
Definition keeps_key (k : string) (o : op) : bool :=
  match o with
  | Remove k' => negb (bool_decide (k' = k))
  | Close => false
  | _ => true
  end.

End MoreCalls.

(** Characters of a number: no space, no sign, no separator. *)
Definition plain_char (c : ascii) : Prop :=
  PyInt.is_space c = false /\ Ascii.eqb c "-" = false
  /\ Ascii.eqb c "+" = false /\ Ascii.eqb c ";" = false
  /\ Ascii.eqb c "." = false.

Definition no_space (s : bytes) : Prop :=
  Forall (fun c => PyInt.is_space c = false) s.

(** ** Reference codecs

    A small pair of codecs that meets the interface, to run the store on
    concrete inputs. *)

Module Ref.

Inductive pyvalue :=
| PNone
| PBool (b : bool)
| PInt (z : Z)
| PStr (s : bytes)
| PObject.   (* any object [marshal] does not take *)

Definition dumps (v : pyvalue) : option bytes :=
  match v with
  | PNone => Some ["N"%char]
  | PBool true => Some ["T"%char]
  | PBool false => Some ["F"%char]
  | PInt z => Some ("i"%char :: PyInt.str_of_int z)
  | PStr s => Some ("s"%char :: s)
  | PObject => None
  end.

Definition loads (b : bytes) : option pyvalue :=
  match b with
  | [] => None
  | c :: r =>
      if Ascii.eqb c "i" then PInt <$> PyInt.literal r
      else if Ascii.eqb c "s" then Some (PStr r)
      else match r with
           | [] =>
               if Ascii.eqb c "N" then Some PNone
               else if Ascii.eqb c "T" then Some (PBool true)
               else if Ascii.eqb c "F" then Some (PBool false)
               else None
           | _ => None
           end
  end.

(** The bytes up to the first [c], and those after it. *)
Fixpoint split_at (c : ascii) (s : bytes) : option (bytes * bytes) :=
  match s with
  | [] => None
  | x :: s' =>
      if Ascii.eqb x c then Some ([], s')
      else '(a, b) ← split_at c s'; Some (x :: a, b)
  end.

Definition put_int (z : Z) : bytes := PyInt.str_of_int z ++ [";"%char].

Definition get_int (s : bytes) : option (Z * bytes) :=
  '(ds, rest) ← split_at ";" s;
  z ← PyInt.literal ds;
  Some (z, rest).

Definition put_entry (e : string * entry) : bytes :=
  let k := of_str (fst e) in
  put_int (blen k) ++ k ++ put_int (fst (snd e)) ++ put_int (snd (snd e)).

Definition get_entry (s : bytes) : option ((string * entry) * bytes) :=
  '(n, s1) ← get_int s;
  if (n <? 0) || (blen s1 <? n) then None
  else
    let k := string_of_list_ascii (take (Z.to_nat n) s1) in
    '(start, s2) ← get_int (drop (Z.to_nat n) s1);
    '(size, s3) ← get_int s2;
    Some ((k, (start, size)), s3).

(** The entries in order, closed by a full stop. *)
Definition index_dumps (d : list (string * entry)) : bytes :=
  concat (map put_entry d) ++ ["."%char].

Fixpoint index_loads_fuel (fuel : nat) (s : bytes)
    : option (list (string * entry)) :=
  match fuel, s with
  | O, _ => None
  | _, [] => None
  | S fuel', c :: _ =>
      if Ascii.eqb c "." then Some []
      else
        '(e, rest) ← get_entry s;
        d ← index_loads_fuel fuel' rest;
        Some (e :: d)
  end.

Definition index_loads (s : bytes) : option (list (string * entry)) :=
  index_loads_fuel (length s) s.

Definition codec : Serializers :=
  {| value := pyvalue;
     marshal_dumps := dumps; marshal_loads := loads;
     pickle_dumps := index_dumps; pickle_loads := index_loads |}.

End Ref.

(** ** Example stores

    Stores over the reference codecs, reached from a newly created file by
    the calls listed. *)

Module Examples.

#[local] Existing Instance Ref.codec.

Definition seven : value := Ref.PInt 7.
Definition yes : value := Ref.PBool true.

Definition fresh : MmapDict := create false.

(** One insertion, not flushed. *)
Definition one_pending : MmapDict := run [Put "a" seven] fresh.

(** One insertion, flushed. *)
Definition populated : MmapDict := run [Put "a" seven; Flush] fresh.

(** The file of [populated] opened again, read-only. *)
Definition reopened_ro : MmapDict :=
  match init (Some (disk populated)) true with
  | inr st => st
  | inl _ => create true
  end.

(** A flushed key removed. *)
Definition removed : MmapDict :=
  run [Put "a" seven; Flush; Remove "a"] fresh.

(** A flushed key removed and inserted again. *)
Definition reinserted : MmapDict :=
  run [Put "a" seven; Flush; Remove "a"; Put "a" yes] fresh.


(** A string whose encoding alone passes the flush threshold. *)
Definition big : value := Ref.PStr (replicate (Z.to_nat 48001) "x"%char).
Definition big_bytes : bytes :=
  "s"%char :: replicate (Z.to_nat 48001) "x"%char.

End Examples.
(** * Properties *)

(** ** Decimal fields *)

Lemma digit_of_uint_chars (d : Decimal.uint) :
  PyInt.chars_uint (PyInt.uint_chars d) = Some d.
Proof.
  induction d; simpl; try rewrite IHd; reflexivity.
Qed.

Lemma uint_chars_plain (d : Decimal.uint) :
  Forall plain_char (PyInt.uint_chars d).
Proof.
  induction d; simpl; constructor; auto; repeat split; reflexivity.
Qed.

Lemma to_int_nonnil (z : Z) :
  match Z.to_int z with
  | Decimal.Pos d | Decimal.Neg d => d <> Decimal.Nil
  end.
Proof.
  destruct z; simpl; try apply Unsigned.to_uint_nonnil. discriminate.
Qed.

Lemma literal_str_of_int (z : Z) :
  PyInt.literal (PyInt.str_of_int z) = Some z.
Proof.
  unfold PyInt.str_of_int.
  pose proof (to_int_nonnil z) as Hnn. pose proof (DecimalZ.of_to z) as Hz.
  destruct (Z.to_int z) as [d|d].
  - pose proof (uint_chars_plain d) as Hp.
    pose proof (digit_of_uint_chars d) as Hd.
    destruct (PyInt.uint_chars d) as [|c ds] eqn:E.
    + destruct d; simpl in E; congruence.
    + inversion Hp as [|? ? (_ & Hm & Hpl & _) _].
      unfold PyInt.literal. rewrite Hm, Hpl.
      unfold PyInt.digits_int. rewrite Hd. simpl. by rewrite <- Hz.
  - simpl. unfold PyInt.digits_int.
    pose proof (digit_of_uint_chars d) as Hd.
    destruct (PyInt.uint_chars d) eqn:E.
    + destruct d; simpl in E; congruence.
    + rewrite Hd. simpl. by rewrite <- Hz.
Qed.

Lemma str_of_int_no_space (z : Z) : no_space (PyInt.str_of_int z).
Proof.
  unfold PyInt.str_of_int, no_space.
  destruct (Z.to_int z) as [d|d]; [|constructor; [reflexivity|]];
    (eapply Forall_impl; [apply uint_chars_plain|]; by intros c [? _]).
Qed.

Lemma lstrip_no_space (s : bytes) : no_space s -> PyInt.lstrip s = s.
Proof. destruct 1 as [|c s Hc _]; simpl; [done|by rewrite Hc]. Qed.

Lemma lstrip_spaces (n : nat) (s : bytes) :
  PyInt.lstrip (replicate n " "%char ++ s) = PyInt.lstrip s.
Proof. induction n; simpl; auto. Qed.

Lemma strip_format_d (w : nat) (z : Z) :
  PyInt.strip (PyInt.format_d w z) = PyInt.str_of_int z.
Proof.
  unfold PyInt.strip, PyInt.format_d.
  pose proof (str_of_int_no_space z) as Hs.
  rewrite lstrip_spaces, (lstrip_no_space _ Hs).
  rewrite lstrip_no_space; [apply rev_involutive|].
  by apply Forall_rev.
Qed.

(** A number written into a header field is read back by [int]. *)
Lemma int_format_d (w : nat) (z : Z) :
  PyInt.int (PyInt.format_d w z) = Some z.
Proof.
  unfold PyInt.int. rewrite strip_format_d. apply literal_str_of_int.
Qed.

Lemma format_d_length (w : nat) (z : Z) :
  (w <= length (PyInt.format_d w z))%nat.
Proof.
  unfold PyInt.format_d. rewrite length_app, length_replicate. lia.
Qed.

(** ** Reading and writing at the end of a known prefix *)

Lemma blen_app (a b : bytes) : blen (a ++ b) = blen a + blen b.
Proof. unfold blen. rewrite length_app. lia. Qed.

Lemma blen_nonneg (a : bytes) : 0 <= blen a.
Proof. unfold blen. lia. Qed.

Lemma read_at_prefix (a b : bytes) (pos n : Z) :
  pos = blen a -> File.read pos n (a ++ b) = File.read 0 n b.
Proof.
  intros ->. unfold File.read, blen.
  by rewrite Nat2Z.id, drop_app_length.
Qed.

Lemma read_exact (a b : bytes) (n : Z) :
  n = blen a -> File.read 0 n (a ++ b) = a.
Proof.
  intros ->. unfold File.read, blen.
  change (Z.to_nat 0) with 0%nat. rewrite drop_0.
  destruct (Z.ltb_spec (Z.of_nat (length a)) 0); [lia|].
  by rewrite Nat2Z.id, take_app_length.
Qed.

Lemma write_at_prefix (a b data : bytes) (pos : Z) :
  pos = blen a ->
  File.write pos data (a ++ b) = a ++ data ++ drop (length data) b.
Proof.
  intros ->. unfold File.write, blen. rewrite Nat2Z.id.
  destruct data as [|c data]; [done|].
  rewrite take_app_length, drop_app_add.
  replace (length a - length (a ++ b))%nat with 0%nat
    by (rewrite length_app; lia).
  done.
Qed.

Lemma write_over (a old new b : bytes) (pos : Z) :
  pos = blen a -> length old = length new ->
  File.write pos new (a ++ old ++ b) = a ++ new ++ b.
Proof.
  intros Hp Hl. rewrite write_at_prefix by done.
  by rewrite <- Hl, drop_app_length.
Qed.

Lemma read_mid (a x b : bytes) (pos n : Z) :
  pos = blen a -> n = blen x -> File.read pos n (a ++ x ++ b) = x.
Proof. intros Hp Hn. rewrite read_at_prefix by done. by apply read_exact. Qed.

Lemma read_length (pos n : Z) (f : bytes) :
  0 <= n -> blen (File.read pos n f) <= n.
Proof.
  intros Hn. unfold File.read, blen.
  destruct (Z.ltb_spec n 0); [lia|]. rewrite length_take. lia.
Qed.

(** ** The ordered dictionary *)

Section DictFacts.
Context {V : Type}.
Implicit Types (d : list (string * V)) (k : string).

Lemma od_mem_keys k d :
  OrderedDict.mem k d = true <-> k ∈ OrderedDict.keys d.
Proof.
  unfold OrderedDict.mem, OrderedDict.keys.
  induction d as [|[k' v] d IH]; simpl.
  - split; [done|]. by intros ?%elem_of_nil.
  - rewrite elem_of_cons. case_decide as Hk; simpl.
    + split; auto.
    + rewrite IH. split; [auto|]. intros [?|?]; [congruence|done].
Qed.

Lemma od_get_set_eq k (v : V) d :
  OrderedDict.get k (OrderedDict.set k v d) = Some v.
Proof.
  induction d as [|[k' v'] d IH]; simpl; repeat case_decide; simpl;
    repeat case_decide; done.
Qed.

Lemma od_get_set_ne k k' (v : V) d :
  k <> k' ->
  OrderedDict.get k' (OrderedDict.set k v d) = OrderedDict.get k' d.
Proof.
  intros Hne. induction d as [|[k'' v'] d IH]; simpl;
    repeat (case_decide; simpl); congruence.
Qed.

Lemma od_mem_set k k' (v : V) d :
  OrderedDict.mem k' d = true ->
  OrderedDict.mem k' (OrderedDict.set k v d) = true.
Proof.
  unfold OrderedDict.mem. destruct (decide (k = k')) as [->|Hne].
  - by rewrite od_get_set_eq.
  - by rewrite od_get_set_ne.
Qed.

Lemma od_get_del_eq k d : OrderedDict.get k (OrderedDict.del k d) = None.
Proof.
  induction d as [|[k' v'] d IH]; simpl; repeat (case_decide; simpl); done.
Qed.

Lemma od_get_del_ne k k' d :
  k <> k' ->
  OrderedDict.get k' (OrderedDict.del k d) = OrderedDict.get k' d.
Proof.
  intros Hne. induction d as [|[k'' v'] d IH]; simpl;
    repeat (case_decide; simpl); congruence.
Qed.

Lemma od_keys_del k d : k ∉ OrderedDict.keys (OrderedDict.del k d).
Proof.
  rewrite <- od_mem_keys. unfold OrderedDict.mem.
  by rewrite od_get_del_eq.
Qed.

End DictFacts.

(** ** The layout of the file *)

Section StoreFacts.
Context `{Serializers}.

Lemma length_HEADER : length HEADER = 8%nat.
Proof. reflexivity. Qed.

Lemma wf_layout (st : MmapDict) :
  wf st ->
  exists f2 data tail,
    disk st = HEADER ++ PyInt.format_d SIZE_BYTES (disk_hwm st)
                     ++ f2 ++ data ++ tail
    /\ length (PyInt.format_d SIZE_BYTES (disk_hwm st)) = SIZE_BYTES
    /\ length f2 = SIZE_BYTES
    /\ blen data = disk_hwm st - header_size.
Proof.
  intros [Hm Hh Hlo Hhi _].
  set (f := disk st) in *. set (h := disk_hwm st) in *.
  unfold header_size, blen, SIZE_BYTES, File.read in *.
  rewrite length_HEADER in *. simpl in Hm, Hh, Hlo.
  exists (take 48 (drop 56 f)), (take (Z.to_nat h - 104) (drop 104 f)),
         (drop (Z.to_nat h) f).
  assert (Hlen : length (PyInt.format_d 48 h) = 48%nat).
  { rewrite <- Hh, length_take, length_drop. lia. }
  split_and!; [|done| |].
  - rewrite <- Hm at 1. rewrite <- Hh.
    replace (drop (Z.to_nat h) f)
      with (drop (Z.to_nat h - 104) (drop 48 (drop 48 (drop 8 f))))
      by (rewrite !drop_drop; f_equal; lia).
    replace (drop 104 f) with (drop 48 (drop 48 (drop 8 f)))
      by (by rewrite !drop_drop).
    replace (drop 56 f) with (drop 48 (drop 8 f)) by (by rewrite !drop_drop).
    by rewrite !take_drop.
  - rewrite length_take, length_drop. lia.
  - rewrite length_take, length_drop. lia.
Qed.

Lemma flush_old_position (st : MmapDict) :
  wf st ->
  PyInt.int (File.read (blen HEADER) (Z.of_nat SIZE_BYTES) (disk st))
  = Some (disk_hwm st).
Proof. intros Hwf. rewrite (wf_hwm _ Hwf). apply int_format_d. Qed.

Lemma flush_writes_layout (st : MmapDict) (f2 data tail : bytes) :
  in_budget st ->
  length f2 = SIZE_BYTES ->
  length (PyInt.format_d SIZE_BYTES (disk_hwm st)) = SIZE_BYTES ->
  blen data = disk_hwm st - header_size ->
  File.write_all (flush_writes st (disk_hwm st))
    (HEADER ++ PyInt.format_d SIZE_BYTES (disk_hwm st) ++ f2 ++ data ++ tail)
  = flushed st data tail.
Proof.
  intros [Hm Hl] Hf2 Hh Hd. unfold fits_field in *.
  unfold File.write_all, flush_writes, flushed. cbn [fold_left fst snd].
  rewrite (write_over HEADER _ (PyInt.format_d SIZE_BYTES (_max_position st)))
    by (done || congruence).
  rewrite (app_assoc HEADER).
  rewrite (write_over _ f2
             (PyInt.format_d SIZE_BYTES (blen (pickle_dumps (_dict st)))))
    by (rewrite ?blen_app; done || congruence).
  rewrite <- (app_assoc HEADER).
  set (hwm := PyInt.format_d SIZE_BYTES (_max_position st)) in *.
  set (len := PyInt.format_d SIZE_BYTES (blen (pickle_dumps (_dict st)))) in *.
  replace (HEADER ++ hwm ++ len ++ data ++ tail)
    with ((HEADER ++ hwm ++ len ++ data) ++ tail)
    by (by rewrite <- !app_assoc).
  rewrite write_at_prefix.
  2:{ rewrite !blen_app. unfold header_size, blen in *.
      rewrite Hm, Hl. unfold SIZE_BYTES in *. lia. }
  rewrite (app_assoc _ (_write_value st)).
  rewrite write_at_prefix.
  2:{ rewrite !blen_app. unfold header_size, blen in *.
      rewrite Hm, Hl. unfold SIZE_BYTES in *. lia. }
  by rewrite <- !app_assoc.
Qed.

Lemma flush_wf (st : MmapDict) :
  wf st -> in_budget st -> read_only st = false -> is_Some (_mmap st) ->
  exists f2 data tail,
    disk st = HEADER ++ PyInt.format_d SIZE_BYTES (disk_hwm st)
                     ++ f2 ++ data ++ tail
    /\ length f2 = SIZE_BYTES
    /\ blen data = disk_hwm st - header_size
    /\ flush st = Ok tt (after_flush st (flushed st data tail)).
Proof.
  intros Hwf Hb Hro [m Hm].
  destruct (wf_layout st Hwf) as (f2 & data & tail & Hd & Hh & Hf2 & Hdata).
  exists f2, data, tail. split_and!; try done.
  unfold flush. rewrite Hro, Hm, (flush_old_position st Hwf).
  pose proof (wf_lo _ Hwf) as Hlo. unfold header_size in Hlo.
  destruct (Z.ltb_spec (disk_hwm st) 0) as [Hneg|_].
  { exfalso. unfold blen, SIZE_BYTES in Hlo. lia. }
  rewrite Hd at 1 2. rewrite flush_writes_layout by done.
  replace (disk_hwm st + blen (_write_value st)) with (_max_position st)
    by (unfold disk_hwm; lia).
  unfold after_flush. by rewrite Hro.
Qed.

Lemma header_size_eq : header_size = 104.
Proof. reflexivity. Qed.

Lemma blen_HEADER : blen HEADER = 8.
Proof. reflexivity. Qed.

Lemma fits_field_blen (z : Z) :
  fits_field z -> blen (PyInt.format_d SIZE_BYTES z) = 48.
Proof. unfold fits_field, blen. intros ->. reflexivity. Qed.

Lemma data_region_read (h : Z) (f : bytes) :
  data_region h f = File.read header_size (Z.max 0 (h - header_size)) f.
Proof.
  unfold data_region, File.read.
  destruct (Z.ltb_spec (Z.max 0 (h - header_size)) 0); [lia|].
  f_equal. lia.
Qed.

Lemma flushed_magic (st : MmapDict) (data tail : bytes) :
  File.read 0 (blen HEADER) (flushed st data tail) = HEADER.
Proof. unfold flushed. by apply read_exact. Qed.

Lemma flushed_hwm (st : MmapDict) (data tail : bytes) :
  in_budget st ->
  File.read (blen HEADER) (Z.of_nat SIZE_BYTES) (flushed st data tail)
  = PyInt.format_d SIZE_BYTES (_max_position st).
Proof.
  intros [Hm _]. unfold flushed. apply read_mid; [done|].
  by rewrite fits_field_blen.
Qed.

Lemma flushed_len (st : MmapDict) (data tail : bytes) :
  in_budget st ->
  File.read (blen HEADER + Z.of_nat SIZE_BYTES) (Z.of_nat SIZE_BYTES)
            (flushed st data tail)
  = PyInt.format_d SIZE_BYTES (blen (pickle_dumps (_dict st))).
Proof.
  intros [Hm Hl]. unfold flushed. cbv zeta. rewrite (app_assoc HEADER).
  apply read_mid; rewrite ?blen_app, !fits_field_blen by done; done.
Qed.

Lemma flushed_data (st : MmapDict) (data tail : bytes) :
  in_budget st ->
  blen data = disk_hwm st - header_size ->
  data_region (disk_hwm st) (flushed st data tail) = data.
Proof.
  intros [Hm Hl] Hd. rewrite data_region_read.
  unfold flushed. cbv zeta.
  rewrite (app_assoc HEADER), (app_assoc (HEADER ++ _)).
  apply read_mid; [|pose proof (blen_nonneg data); lia].
  rewrite !blen_app, !fits_field_blen by done. reflexivity.
Qed.

Lemma flushed_index (st : MmapDict) (data tail : bytes) :
  in_budget st ->
  blen data = disk_hwm st - header_size ->
  File.read (_max_position st) (blen (pickle_dumps (_dict st)))
            (flushed st data tail)
  = pickle_dumps (_dict st).
Proof.
  intros [Hm Hl] Hd. unfold flushed. cbv zeta.
  set (blob := pickle_dumps (_dict st)) in *.
  set (h := PyInt.format_d SIZE_BYTES (_max_position st)) in *.
  set (l := PyInt.format_d SIZE_BYTES (blen blob)) in *.
  replace (HEADER ++ h ++ l ++ data ++ _write_value st ++ blob
             ++ drop (length blob) (drop (length (_write_value st)) tail))
    with ((HEADER ++ h ++ l ++ data ++ _write_value st) ++ blob
             ++ drop (length blob) (drop (length (_write_value st)) tail))
    by (by rewrite <- !app_assoc).
  apply read_mid; [|done].
  rewrite !blen_app. subst h l. rewrite !fits_field_blen, Hd by done.
  rewrite header_size_eq, blen_HEADER. unfold disk_hwm. lia.
Qed.

Lemma flushed_length (st : MmapDict) (data tail : bytes) :
  in_budget st ->
  blen data = disk_hwm st - header_size ->
  _max_position st <= blen (flushed st data tail).
Proof.
  intros [Hm Hl] Hd. unfold flushed. cbv zeta.
  rewrite !blen_app, !fits_field_blen, Hd by done.
  rewrite header_size_eq, blen_HEADER. unfold disk_hwm.
  pose proof (blen_nonneg (pickle_dumps (_dict st))).
  pose proof (blen_nonneg
    (drop (length (pickle_dumps (_dict st)))
          (drop (length (_write_value st)) tail))).
  lia.
Qed.

Lemma after_flush_wf (st : MmapDict) (data tail : bytes) :
  wf st -> in_budget st ->
  blen data = disk_hwm st - header_size ->
  wf (after_flush st (flushed st data tail)).
Proof.
  intros Hwf Hb Hd. pose proof (wf_lo _ Hwf) as Hlo.
  pose proof (blen_nonneg (_write_value st)) as Hw.
  constructor; simpl.
  - apply flushed_magic.
  - rewrite flushed_hwm by done. unfold disk_hwm. simpl.
    by rewrite Z.sub_0_r.
  - unfold disk_hwm in *. simpl. change (blen []) with 0. lia.
  - unfold disk_hwm at 1. simpl. change (blen []) with 0.
    rewrite Z.sub_0_r. by apply flushed_length.
  - by intros m [= <-].
Qed.

(** What [flush] does in a well-formed state. *)
Lemma flush_effect (st : MmapDict) :
  wf st -> in_budget st ->
  (flush st = Raise ReadOnlyError st /\ read_only st = true)
  \/ (flush st = Raise ValueError st
      /\ read_only st = false /\ _mmap st = None)
  \/ (exists data tail,
        blen data = disk_hwm st - header_size
        /\ data_region (disk_hwm st) (disk st) = data
        /\ read_only st = false
        /\ flush st = Ok tt (after_flush st (flushed st data tail))).
Proof.
  intros Hwf Hb.
  destruct (read_only st) eqn:Hro.
  { left. unfold flush. by rewrite Hro. }
  destruct (_mmap st) as [m|] eqn:Hm.
  2:{ right; left. unfold flush. by rewrite Hro, Hm. }
  right; right.
  destruct (flush_wf st Hwf Hb Hro) as (f2 & data & tail & Hd & Hf2 & Hda & Hf).
  { by rewrite Hm. }
  exists data, tail. split_and!; try done.
  rewrite Hd, data_region_read.
  destruct (wf_layout st Hwf) as (_ & _ & _ & _ & Hh & _).
  rewrite (app_assoc HEADER), (app_assoc (HEADER ++ _)).
  pose proof (wf_lo _ Hwf).
  apply read_mid; [|lia].
  rewrite !blen_app. unfold blen at 2 3. rewrite Hh, Hf2. reflexivity.
Qed.

(** ** One operation on a well-formed store *)

Lemma grows_refl (st : MmapDict) : grows st st.
Proof. unfold grows. split_and!; (lia || done). Qed.

Lemma data_region_le (h h' : Z) (f g : bytes) :
  h <= h' -> data_region h' f = data_region h' g ->
  data_region h f = data_region h g.
Proof.
  unfold data_region. intros Hle Hd.
  replace (Z.to_nat (h - header_size))
    with (Z.to_nat (h - header_size) `min` Z.to_nat (h' - header_size))%nat
    by lia.
  by rewrite <- !take_take, Hd.
Qed.

Lemma grows_trans (st1 st2 st3 : MmapDict) :
  grows st1 st2 -> grows st2 st3 -> grows st1 st3.
Proof.
  intros (Hm1 & Hh1 & Hd1) (Hm2 & Hh2 & Hd2). unfold grows.
  split_and!; [lia..|].
  rewrite <- Hd1. by apply data_region_le with (disk_hwm st2).
Qed.

Lemma wf_same_file (st st' : MmapDict) :
  disk st' = disk st -> disk_hwm st' = disk_hwm st ->
  (forall m, _mmap st' = Some m -> _mmap st = Some m) ->
  wf st -> wf st'.
Proof.
  intros Hd Hh Hm [? ? ? ? Hmm].
  constructor; rewrite ?Hd, ?Hh; try done.
  intros m Hm'. by apply Hmm, Hm.
Qed.

Lemma grows_same_file (st st' : MmapDict) :
  _max_position st' = _max_position st -> disk_hwm st' = disk_hwm st ->
  disk st' = disk st -> grows st st'.
Proof. unfold grows. intros -> -> ->. split_and!; (lia || done). Qed.

Lemma flush_fields (st : MmapDict) :
  wf st ->
  _max_position (state_of (flush st)) = _max_position st
  /\ _dict (state_of (flush st)) = _dict st.
Proof.
  intros Hwf. unfold flush.
  destruct (read_only st); [done|]. destruct (_mmap st); [|done].
  rewrite (flush_old_position st Hwf).
  destruct (disk_hwm st <? 0); simpl; [done|].
  split; [unfold disk_hwm; lia|done].
Qed.

Lemma flush_budget (st : MmapDict) :
  wf st -> in_budget (state_of (flush st)) -> in_budget st.
Proof.
  intros Hwf. unfold in_budget.
  by destruct (flush_fields st Hwf) as [-> ->].
Qed.

Lemma flush_grows (st : MmapDict) :
  wf st -> in_budget st ->
  wf (state_of (flush st)) /\ grows st (state_of (flush st)).
Proof.
  intros Hwf Hb.
  destruct (flush_effect st Hwf Hb)
    as [[-> _]|[[-> _]|(data & tail & Hd & Hr & _ & ->)]]; simpl.
  - split; [done|apply grows_refl].
  - split; [done|apply grows_refl].
  - split; [by apply after_flush_wf|].
    pose proof (blen_nonneg (_write_value st)).
    unfold grows. simpl. split_and!; [lia| |].
    + unfold disk_hwm. simpl. change (blen []) with 0. lia.
    + by rewrite flushed_data, Hr.
Qed.

Lemma buffered_wf (st : MmapDict) (key : string) (b : bytes) :
  wf st -> wf (buffered st key b) /\ grows st (buffered st key b).
Proof.
  intros Hwf.
  assert (Hh : disk_hwm (buffered st key b) = disk_hwm st).
  { unfold disk_hwm. simpl. rewrite blen_app. lia. }
  split; [by apply (wf_same_file st)|].
  unfold grows. rewrite Hh. simpl.
  pose proof (blen_nonneg b). split_and!; (lia || done).
Qed.

Lemma getitem_state (st : MmapDict) (key : string) :
  state_of (getitem st key) = st.
Proof.
  unfold getitem.
  destruct (_new_dict st !! key).
  { by destruct (loads _). }
  destruct (OrderedDict.get key (_dict st)) as [[start size]|]; [|done].
  by destruct (_ ≫= _).
Qed.

(** Every operation keeps a well-formed store well-formed, and moves the
    end of the data forward only. *)
Lemma exec_grows (o : op) (st : MmapDict) :
  wf st -> in_budget (exec o st) ->
  wf (exec o st) /\ grows st (exec o st).
Proof.
  intros Hwf Hb. destruct o as [key v|key|key| |]; simpl in *.
  - unfold setitem in *.
    destruct (OrderedDict.mem key (_dict st)); [split; [done|apply grows_refl]|].
    destruct (marshal_dumps v) as [b|]; [|split; [done|apply grows_refl]].
    destruct (buffered_wf st key b Hwf) as [Hwf1 Hg1].
    cbv zeta in *.
    destruct (48000 <? blen (_write_value (buffered st key b))); [|done].
    destruct (flush_grows _ Hwf1 (flush_budget _ Hwf1 Hb)) as [Hwf2 Hg2].
    split; [done|by eapply grows_trans].
  - rewrite getitem_state. split; [done|apply grows_refl].
  - unfold delitem.
    destruct (OrderedDict.mem key (_dict st)); simpl;
      [|split; [done|apply grows_refl]].
    split; [by apply (wf_same_file st)|by apply grows_same_file].
  - by apply flush_grows, flush_budget.
  - unfold close in *. destruct (read_only st) eqn:Hro; simpl in *.
    { split; [by apply (wf_same_file st)|by apply grows_same_file]. }
    destruct (flush_fields st Hwf) as [Hm Hd].
    assert (Hb' : in_budget st).
    { unfold in_budget in *. rewrite <- Hm, <- Hd.
      by destruct (flush st). }
    destruct (flush_grows st Hwf Hb') as [Hwf' Hg].
    destruct (flush st) as [[] st'|e st']; simpl in *; [|done].
    split; [by apply (wf_same_file st')|].
    eapply grows_trans; [done|by apply grows_same_file].
Qed.

(** ** The claims about single calls *)

Lemma flush_read_only (st : MmapDict) :
  read_only st = true -> flush st = Raise ReadOnlyError st.
Proof. intros Hro. unfold flush. by rewrite Hro. Qed.

Lemma setitem_buffers (st : MmapDict) (k : string) (v : value) (b : bytes) :
  contains st k = false -> marshal_dumps v = Some b ->
  blen (_write_value st ++ b) <= 48000 ->
  setitem st k v = Ok tt (buffered st k b).
Proof.
  unfold contains, setitem. intros -> -> Hsz. cbv zeta.
  destruct (Z.ltb_spec 48000 (blen (_write_value (buffered st k b))));
    [simpl in *; lia|done].
Qed.

Lemma keeps_pending_step (k : string) (b : bytes) (o : op) (st : MmapDict) :
  contains st k = true -> _new_dict st !! k = Some b ->
  keeps_pending k st o ->
  contains (exec o st) k = true /\ _new_dict (exec o st) !! k = Some b.
Proof.
  intros Hk Hov Hq. destruct o as [k' v'|k'|k'| |]; simpl in *; try done.
  - destruct (contains st k') eqn:Hk'.
    { unfold setitem, contains in *. by rewrite Hk'. }
    destruct (marshal_dumps v') as [b'|] eqn:Hd.
    2:{ unfold setitem, contains in *. by rewrite Hk', Hd. }
    rewrite (setitem_buffers st k' v' b') by auto. simpl.
    split; [by apply od_mem_set|].
    rewrite lookup_insert_ne; [done|]. intros ->. congruence.
  - by rewrite getitem_state.
  - unfold delitem, contains in *.
    destruct (OrderedDict.mem k' (_dict st)); simpl; [|done].
    split; [|done]. unfold OrderedDict.mem in *.
    by rewrite od_get_del_ne.
Qed.

Lemma keeps_pending_run (k : string) (b : bytes) (ops : list op)
    (st : MmapDict) :
  contains st k = true -> _new_dict st !! k = Some b ->
  keeps_pending_along k ops st ->
  contains (run ops st) k = true /\ _new_dict (run ops st) !! k = Some b.
Proof.
  revert st. induction ops as [|o ops IH]; intros st Hk Hov Hq; [done|].
  destruct Hq as [Hq Hqs].
  destruct (keeps_pending_step k b o st Hk Hov Hq) as [Hk' Hov'].
  by apply IH.
Qed.

(** C6. After [put] of a fresh key and before any flush, called or set off
    by the threshold, [get] decodes the bytes kept in the pending overlay
    and returns the value put; the calls in between may be any that do not
    flush and do not remove the key. *)
Theorem put_then_get (st : MmapDict) (k : string) (v : value) (b : bytes)
    (mid : list op) :
  contains st k = false ->
  marshal_dumps v = Some b -> marshal_loads b = Some v ->
  blen (_write_value st ++ b) <= 48000 ->
  keeps_pending_along k mid (buffered st k b) ->
  setitem st k v = Ok tt (buffered st k b)
  /\ _new_dict (run mid (buffered st k b)) !! k = Some b
  /\ getitem (run mid (buffered st k b)) k
     = Ok v (run mid (buffered st k b)).
Proof.
  intros Hk Hd Hl Hsz Hq.
  destruct (keeps_pending_run k b mid (buffered st k b)) as [_ Hov]; auto.
  { unfold contains, OrderedDict.mem. simpl. by rewrite od_get_set_eq. }
  { apply lookup_insert_eq. }
  split_and!; [by apply setitem_buffers|done|].
  unfold getitem, loads. by rewrite Hov, Hl.
Qed.

(** C10. A key inserted since the last flush and then deleted: the pending
    overlay still holds its bytes and [get], which looks there first, still
    returns the inserted value, while [contains] is false and [keys] does
    not list the key.  Between the insertion and the deletion come any calls
    that do not flush and do not remove the key. *)
Theorem deleted_pending_key_still_read
    (st : MmapDict) (k : string) (v : value) (b : bytes) (mid : list op) :
  contains st k = false ->
  marshal_dumps v = Some b -> marshal_loads b = Some v ->
  blen (_write_value st ++ b) <= 48000 ->
  keeps_pending_along k mid (buffered st k b) ->
  setitem st k v = Ok tt (buffered st k b)
  /\ exists st',
       delitem (run mid (buffered st k b)) k = Ok tt st'
       /\ _new_dict st' !! k = Some b
       /\ getitem st' k = Ok v st'
       /\ contains st' k = false
       /\ k ∉ keys st'.
Proof.
  intros Hk Hd Hl Hsz Hq.
  destruct (keeps_pending_run k b mid (buffered st k b)) as [Hin Hov]; auto.
  { unfold contains, OrderedDict.mem. simpl. by rewrite od_get_set_eq. }
  { apply lookup_insert_eq. }
  split; [by apply setitem_buffers|].
  unfold contains in Hin.
  eexists. split; [unfold delitem; by rewrite Hin|]. simpl.
  split_and!; [done| | |].
  - unfold getitem, loads. simpl. by rewrite Hov, Hl.
  - unfold contains, OrderedDict.mem. simpl. by rewrite od_get_del_eq.
  - apply od_keys_del.
Qed.

Lemma iteritems_from_keys (st : MmapDict) (it : list (string * entry))
    (l : list (string * value)) :
  iteritems_from st it = inr l -> map fst l = OrderedDict.keys it.
Proof.
  revert l. induction it as [|[key [start size]] it IH]; intros l; simpl.
  { by intros [= <-]. }
  destruct (match _new_dict st !! key with
            | Some b => inr b
            | None => mmap_read st start size
            end) as [e|b]; simpl; [done|].
  destruct (loads b) as [e|v]; simpl; [done|].
  destruct (iteritems_from st it) as [e|rest]; simpl; [done|].
  intros [= <-]. simpl. f_equal. by apply IH.
Qed.

(** Removing a key that is not in the pending overlay: the key is gone for
    [get], [contains], [keys] and the iteration, and neither the file nor
    the write buffer loses a byte. *)
Lemma delitem_persisted_key (st : MmapDict) (k : string) :
  contains st k = true -> _new_dict st !! k = None ->
  exists st',
    delitem st k = Ok tt st'
    /\ getitem st' k = Raise KeyNotFoundError st'
    /\ contains st' k = false
    /\ (k ∉ keys st')
    /\ (forall l, iteritems st' = inr l -> k ∉ map fst l)
    /\ disk st' = disk st /\ _write_value st' = _write_value st
    /\ _max_position st' = _max_position st.
Proof.
  unfold contains. intros Hk Hov.
  eexists. split; [unfold delitem; by rewrite Hk|]. simpl.
  split_and!; try done.
  - unfold getitem. simpl. by rewrite Hov, od_get_del_eq.
  - unfold contains, OrderedDict.mem. simpl. by rewrite od_get_del_eq.
  - apply od_keys_del.
  - intros l Hl. rewrite (iteritems_from_keys _ _ _ Hl). apply od_keys_del.
Qed.

(** The file of a well-formed store, opened again, gives a well-formed
    store with the same end-of-data offset. *)
Lemma reopen_wf (st : MmapDict) (ro : bool) (m l : Z)
    (d : list (string * entry)) :
  wf st -> read_header (disk st) = inr (m, l, d) ->
  exists st',
    init (Some (disk st)) ro = inr st'
    /\ wf st' /\ _dict st' = d /\ disk_hwm st' = disk_hwm st.
Proof.
  intros Hwf Hr.
  assert (Hm : m = disk_hwm st).
  { unfold read_header in Hr.
    rewrite (flush_old_position st Hwf) in Hr.
    destruct (negb _); [done|].
    destruct (PyInt.int _); [|done].
    destruct (disk_hwm st <? 0); [done|].
    destruct (pickle_loads _); [|done]. by injection Hr as <- _ _. }
  subst m. unfold init.
  pose proof (wf_lo _ Hwf) as Hlo. pose proof (wf_hi _ Hwf) as Hhi.
  rewrite header_size_eq in Hlo.
  destruct (disk st) as [|c f] eqn:Hd.
  { exfalso. change (blen []) with 0 in Hhi. lia. }
  rewrite Hr. eexists. split; [done|]. split_and!; [|done|].
  - destruct Hwf as [Hmg Hh _ _ _]. rewrite Hd in Hmg, Hh.
    constructor; simpl disk; unfold disk_hwm; simpl;
      change (blen []) with 0; rewrite ?Z.sub_0_r; try done; try lia.
    by intros ? [= <-].
  - unfold disk_hwm. simpl. change (blen []) with 0. lia.
Qed.

(** C8. Along any run of calls on a well-formed store, the end-of-data
    offset, in the object and in the file's header, never goes down, and the
    bytes of the data region stay where they are. *)
Theorem hwm_never_decreases (ops : list op) (st : MmapDict) :
  wf st -> budget_along ops st ->
  let st' := run ops st in
  wf st'
  /\ _max_position st <= _max_position st'
  /\ disk_hwm st <= disk_hwm st'
  /\ fst (header_fields (disk st')) = Some (disk_hwm st')
  /\ data_region (disk_hwm st) (disk st')
     = data_region (disk_hwm st) (disk st).
Proof.
  intros Hwf Hb. cbv zeta.
  cut (wf (run ops st) /\ grows st (run ops st)).
  { intros [Hwf' (Hm & Hh & Hd)]. split_and!; try done.
    unfold header_fields. simpl. rewrite (wf_hwm _ Hwf').
    apply int_format_d. }
  revert st Hwf Hb. induction ops as [|o ops IH]; intros st Hwf Hb.
  { split; [done|apply grows_refl]. }
  destruct Hb as [Hb Hbs].
  destruct (exec_grows o st Hwf Hb) as [Hwf1 Hg1].
  destruct (IH _ Hwf1 Hbs) as [Hwf2 Hg2].
  split; [done|by eapply grows_trans].
Qed.

(** ** Flushing and reopening *)

Lemma wf_fits_hwm (st : MmapDict) : wf st -> fits_field (disk_hwm st).
Proof. intros Hwf. by destruct (wf_layout st Hwf) as (? & ? & ? & _ & ? & _). Qed.

Lemma synced_budget (st : MmapDict) :
  wf st -> _write_value st = [] -> synced st -> in_budget st.
Proof.
  intros Hwf Hw [Hl _]. split.
  - replace (_max_position st) with (disk_hwm st);
      [by apply wf_fits_hwm|].
    unfold disk_hwm. rewrite Hw. change (blen []) with 0. lia.
  - unfold fits_field.
    pose proof (format_d_length SIZE_BYTES
                  (blen (pickle_dumps (_dict st)))) as Hge.
    pose proof (read_length (blen HEADER + Z.of_nat SIZE_BYTES)
                  (Z.of_nat SIZE_BYTES) (disk st)) as Hle.
    rewrite Hl in Hle. unfold blen, SIZE_BYTES in *. lia.
Qed.

(** C9 (amended). On a mutable, open, well-formed store with nothing
    pending whose file holds the in-memory index (no key was removed since
    the last flush), [flush] returns and leaves the object and every byte of
    the file as they were. *)
Theorem flush_nothing_pending_noop (st : MmapDict) :
  wf st -> read_only st = false -> is_Some (_mmap st) ->
  nothing_pending st -> synced st ->
  flush st = Ok tt st.
Proof.
  intros Hwf Hro Hmm [Hw Hn] Hs.
  pose proof (synced_budget st Hwf Hw Hs) as Hb.
  destruct (flush_wf st Hwf Hb Hro Hmm)
    as (f2 & data & tail & Hd & Hf2 & Hda & ->).
  f_equal.
  assert (Hh : disk_hwm st = _max_position st).
  { unfold disk_hwm. rewrite Hw. change (blen []) with 0. lia. }
  assert (Hfl : flushed st data tail = disk st).
  { destruct Hs as [Hl Hi]. cbv zeta in *.
    destruct (wf_layout st Hwf) as (_ & _ & _ & _ & Hhl & _).
    unfold flushed. cbv zeta. rewrite Hw. simpl drop. simpl app at 5.
    rewrite Hd in Hl, Hi. rewrite Hd, Hh.
    rewrite (app_assoc HEADER) in Hl.
    rewrite read_mid in Hl
      by (rewrite ?blen_app; unfold blen; rewrite ?Hhl, ?Hf2; done).
    rewrite <- Hl.
    replace (HEADER ++ PyInt.format_d SIZE_BYTES (disk_hwm st)
               ++ f2 ++ data ++ tail)
      with ((HEADER ++ PyInt.format_d SIZE_BYTES (disk_hwm st)
               ++ f2 ++ data) ++ tail) in Hi
      by (by rewrite <- !app_assoc).
    rewrite read_at_prefix in Hi.
    2:{ rewrite !blen_app, Hda, header_size_eq, blen_HEADER.
        unfold blen. rewrite Hhl, Hf2. unfold SIZE_BYTES. lia. }
    rewrite <- Hh. do 4 f_equal.
    assert (Ht : take (length (pickle_dumps (_dict st))) tail
                 = pickle_dumps (_dict st)).
    { rewrite <- Hi at 2. unfold File.read, blen.
      change (Z.to_nat 0) with 0%nat. rewrite drop_0, Nat2Z.id.
      by destruct (Z.ltb_spec (Z.of_nat (length (pickle_dumps (_dict st)))) 0);
        [lia|]. }
    set (n := length (pickle_dumps (_dict st))) in *.
    by rewrite <- Ht, take_drop. }
  rewrite Hfl. unfold after_flush.
  destruct Hmm as [m Hm]. rewrite (wf_mmap _ Hwf m Hm) in Hm.
  destruct st; simpl in *. by subst.
Qed.

(** ** The order of the writes of a flush *)

Lemma cut_flush_after_data (st : MmapDict) :
  wf st -> in_budget st ->
  exists data tail,
    cut_flush 3 st
    = HEADER ++ PyInt.format_d SIZE_BYTES (_max_position st)
        ++ PyInt.format_d SIZE_BYTES (blen (pickle_dumps (_dict st)))
        ++ data ++ _write_value st
        ++ drop (length (_write_value st)) tail.
Proof.
  intros Hwf [Hm Hl].
  destruct (wf_layout st Hwf) as (f2 & data & tail & Hd & Hh & Hf2 & Hda).
  exists data, tail. unfold cut_flush, File.write_all, flush_writes.
  cbn [take fold_left fst snd]. rewrite Hd. unfold fits_field in *.
  rewrite (write_over HEADER _ (PyInt.format_d SIZE_BYTES (_max_position st)))
    by (done || congruence).
  rewrite (app_assoc HEADER).
  rewrite (write_over _ f2
             (PyInt.format_d SIZE_BYTES (blen (pickle_dumps (_dict st)))))
    by (rewrite ?blen_app; done || congruence).
  rewrite <- (app_assoc HEADER).
  set (hwm := PyInt.format_d SIZE_BYTES (_max_position st)) in *.
  set (len := PyInt.format_d SIZE_BYTES (blen (pickle_dumps (_dict st)))) in *.
  replace (HEADER ++ hwm ++ len ++ data ++ tail)
    with ((HEADER ++ hwm ++ len ++ data) ++ tail)
    by (by rewrite <- !app_assoc).
  rewrite write_at_prefix.
  2:{ rewrite !blen_app. unfold header_size, blen in *.
      rewrite Hm, Hl. unfold SIZE_BYTES in *. lia. }
  by rewrite <- !app_assoc.
Qed.

(** C1 (amended). [flush] writes the two header fields first, the new
    end-of-data offset and then the new index length, after them the
    buffered bytes at the old end of the data, and last the index right
    behind those bytes.  So a file cut off after the write of the data
    region holds the header of the finished flush: a reader finds the new
    end-of-data offset and the new index length there. *)
Theorem flush_writes_header_first (st : MmapDict) :
  wf st -> in_budget st ->
  let blob := pickle_dumps (_dict st) in
  flush_writes st (disk_hwm st)
  = [ (8, PyInt.format_d SIZE_BYTES (_max_position st));
      (56, PyInt.format_d SIZE_BYTES (blen blob));
      (disk_hwm st, _write_value st);
      (_max_position st, blob) ]
  /\ (read_only st = false -> is_Some (_mmap st) ->
      disk (state_of (flush st)) = cut_flush 4 st)
  /\ header_fields (cut_flush 3 st)
     = (Some (_max_position st), Some (blen blob)).
Proof.
  intros Hwf Hb. cbv zeta. pose proof Hb as [Hm Hl]. split_and!.
  - unfold flush_writes. rewrite (fits_field_blen _ Hm), blen_HEADER.
    do 3 f_equal. f_equal. f_equal. unfold disk_hwm. lia.
  - intros Hro [m Hmm]. unfold flush.
    rewrite Hro, Hmm, (flush_old_position st Hwf).
    pose proof (wf_lo _ Hwf) as Hlo. rewrite header_size_eq in Hlo.
    by destruct (Z.ltb_spec (disk_hwm st) 0); [lia|].
  - destruct (cut_flush_after_data st Hwf Hb) as (data & tail & ->).
    unfold header_fields. f_equal.
    + rewrite read_mid; [apply int_format_d|done|].
      by rewrite fits_field_blen.
    + rewrite (app_assoc HEADER).
      rewrite read_mid; [apply int_format_d| |].
      * by rewrite blen_app, fits_field_blen.
      * by rewrite fits_field_blen.
Qed.

End StoreFacts.

(** ** The persisted index and the pending overlay *)

Section Persisted.
Context `{Serializers} `{!PickleLaws}.

Lemma read_header_flushed (st : MmapDict) (data tail : bytes) :
  wf st -> in_budget st ->
  blen data = disk_hwm st - header_size ->
  read_header (flushed st data tail)
  = inr (_max_position st, blen (pickle_dumps (_dict st)), _dict st).
Proof.
  intros Hwf Hb Hd. unfold read_header.
  rewrite flushed_magic, bool_decide_eq_true_2 by done. simpl negb. cbv iota.
  rewrite flushed_hwm, int_format_d by done.
  rewrite flushed_len, int_format_d by done.
  pose proof (wf_lo _ Hwf) as Hlo. rewrite header_size_eq in Hlo.
  pose proof (blen_nonneg (_write_value st)).
  destruct (Z.ltb_spec (_max_position st) 0);
    [unfold disk_hwm in *; lia|].
  by rewrite flushed_index, pickle_roundtrip.
Qed.

Lemma new_file_flushed (ro : bool) : new_file = flushed (create ro) [] [].
Proof.
  unfold new_file, flushed, create.
  cbn [_max_position _dict _write_value length]. cbv zeta.
  by rewrite !drop_nil, app_nil_r.
Qed.

Lemma create_wf (ro : bool) : in_budget (create ro) -> wf (create ro).
Proof.
  intros Hb.
  constructor; simpl disk; rewrite ?(new_file_flushed ro).
  - apply flushed_magic.
  - by rewrite flushed_hwm.
  - done.
  - by apply flushed_length.
  - simpl. intros m [= <-]. apply new_file_flushed.
Qed.

Lemma flush_disjoint (st : MmapDict) :
  wf st -> disjoint_layers st -> in_budget st ->
  disjoint_layers (state_of (flush st)).
Proof.
  intros Hwf HD Hb.
  destruct (flush_effect st Hwf Hb)
    as [[-> _]|[[-> _]|(data & tail & Hd & Hr & _ & ->)]]; simpl; try done.
  exists (_dict st). unfold persisted_index. simpl disk.
  rewrite read_header_flushed by done.
  split; [done|]. intros k _ [b Hp]. simpl in Hp.
  by rewrite lookup_empty in Hp.
Qed.

Lemma buffered_disjoint (st : MmapDict) (k : string) (b : bytes) :
  disjoint_layers st ->
  (forall D, persisted_index (disk st) = Some D ->
             OrderedDict.mem k D = false) ->
  disjoint_layers (buffered st k b).
Proof.
  intros (D & HD & Hkeys) Hk. exists D. split; [done|].
  intros k' Hk' [b' Hp]. simpl in Hp.
  destruct (decide (k = k')) as [<-|Hne].
  - apply od_mem_keys in Hk'. rewrite (Hk D HD) in Hk'. done.
  - rewrite lookup_insert_ne in Hp by done. apply (Hkeys k' Hk'). by exists b'.
Qed.

Lemma same_layers (st st' : MmapDict) :
  disk st' = disk st -> _new_dict st' = _new_dict st ->
  disjoint_layers st -> disjoint_layers st'.
Proof.
  intros Hd Hn (D & HD & Hkeys). exists D. rewrite Hd. split; [done|].
  intros k Hk. unfold pending. rewrite Hn. by apply Hkeys.
Qed.

(** Every call but the put of a key that was flushed and then removed keeps
    the persisted index and the pending overlay apart. *)
Lemma exec_disjoint (o : op) (st : MmapDict) :
  wf st -> disjoint_layers st ->
  reput st o = false -> in_budget (exec o st) ->
  disjoint_layers (exec o st).
Proof.
  intros Hwf HD Hr Hb.
  destruct o as [k v|k|k| |]; simpl in *.
  - unfold setitem, contains in *.
    destruct (OrderedDict.mem k (_dict st)) eqn:Hk; [done|].
    destruct (marshal_dumps v) as [b|]; [|done].
    assert (HD1 : disjoint_layers (buffered st k b)).
    { apply buffered_disjoint; [done|]. intros D HDk.
      by rewrite HDk in Hr. }
    destruct (buffered_wf st k b Hwf) as [Hwf1 _]. cbv zeta in *.
    destruct (48000 <? blen (_write_value (buffered st k b))); [|done].
    apply flush_disjoint; [done..|]. by apply flush_budget.
  - by rewrite getitem_state.
  - unfold delitem. destruct (OrderedDict.mem k (_dict st)); simpl; [|done].
    by apply (same_layers st).
  - apply flush_disjoint; [done..|]. by apply flush_budget.
  - unfold close in *. destruct (read_only st) eqn:Hro; simpl in *.
    { by apply (same_layers st). }
    destruct (flush_fields st Hwf) as [Hm Hd].
    assert (Hb' : in_budget st).
    { unfold in_budget in *. rewrite <- Hm, <- Hd. by destruct (flush st). }
    pose proof (flush_disjoint st Hwf HD Hb') as HD'.
    destruct (flush st) as [[] st'|e st']; simpl in *; [|done].
    by apply (same_layers st').
Qed.

Lemma run_disjoint (ops : list op) (st : MmapDict) :
  wf st -> disjoint_layers st ->
  budget_along ops st -> no_reput_along ops st = true ->
  wf (run ops st) /\ disjoint_layers (run ops st).
Proof.
  revert st. induction ops as [|o ops IH]; intros st Hwf HD Hb Hr; [done|].
  simpl in Hr. apply andb_prop in Hr as [Hr Hrs].
  apply negb_true_iff in Hr. destruct Hb as [Hb Hbs].
  apply IH; try done.
  - by apply exec_grows.
  - by apply exec_disjoint.
Qed.

(** C4 (amended). Start from any well-formed store whose persisted index
    and pending overlay share no key (a store just created or just opened
    is one) and run any calls of [put], [get], [remove], [flush] and
    [close], among which no [put] takes up a key that is in the persisted
    index and was removed from the store: in the state reached, the index
    persisted in the file and the pending overlay share no key.  And [get],
    [remove] and a [put] under the flush threshold write nothing to the
    file, so that a key enters the persisted index by a flush only. *)
Theorem persisted_and_pending_disjoint (ops : list op) (st : MmapDict) :
  wf st -> disjoint_layers st ->
  budget_along ops st -> no_reput_along ops st = true ->
  let st' := run ops st in
  (exists D, persisted_index (disk st') = Some D
     /\ forall k, k ∈ OrderedDict.keys D -> ~ pending st' k)
  /\ (forall k, disk (exec (Get k) st') = disk st')
  /\ (forall k, disk (exec (Remove k) st') = disk st')
  /\ (forall k v b, marshal_dumps v = Some b ->
        blen (_write_value st' ++ b) <= 48000 ->
        disk (exec (Put k v) st') = disk st').
Proof.
  intros Hwf HD Hb Hr. cbv zeta.
  destruct (run_disjoint ops st Hwf HD Hb Hr) as [_ HD'].
  split_and!.
  - exact HD'.
  - intros k. simpl. by rewrite getitem_state.
  - intros k. simpl. unfold delitem. by destruct (OrderedDict.mem _ _).
  - intros k v b Hd Hsz. simpl.
    destruct (contains (run ops st) k) eqn:Hk.
    + unfold setitem, contains in *. by rewrite Hk.
    + by rewrite (setitem_buffers _ k v b).
Qed.

End Persisted.

(** ** Putting a key that is in the store *)

Section Duplicates.
Context `{Serializers}.

Lemma flush_overlay (st : MmapDict) :
  _dict (state_of (flush st)) = _dict st
  /\ (_new_dict (state_of (flush st)) = _new_dict st
      \/ _new_dict (state_of (flush st)) = ∅).
Proof.
  unfold flush. destruct (read_only st); [by split; [|left]|].
  destruct (_mmap st); [|by split; [|left]].
  destruct (PyInt.int _) as [p|]; [|by split; [|left]].
  destruct (p <? 0); simpl; split; auto.
Qed.

Lemma flush_overlay_in_index (st : MmapDict) :
  overlay_in_index st -> overlay_in_index (state_of (flush st)).
Proof.
  intros Ho k [b Hp]. unfold contains.
  destruct (flush_overlay st) as [-> [Hn|Hn]]; rewrite Hn in Hp.
  - apply Ho. by exists b.
  - by rewrite lookup_empty in Hp.
Qed.

(** Every call but the removal of a pending key keeps the overlay inside
    the index. *)
Lemma exec_overlay_in_index (o : op) (st : MmapDict) :
  overlay_in_index st -> removes_pending st o = false ->
  overlay_in_index (exec o st).
Proof.
  intros Ho Hr. destruct o as [k v|k|k| |]; simpl in *.
  - unfold setitem.
    destruct (OrderedDict.mem k (_dict st)) eqn:Hk; [done|].
    destruct (marshal_dumps v) as [b|]; [|done]. cbv zeta.
    assert (Ho1 : overlay_in_index (buffered st k b)).
    { intros k' [b' Hp]. unfold contains. simpl in *.
      destruct (decide (k = k')) as [<-|Hne].
      - unfold OrderedDict.mem. by rewrite od_get_set_eq.
      - rewrite lookup_insert_ne in Hp by done.
        apply od_mem_set, Ho. by exists b'. }
    destruct (48000 <? _); [|done]. by apply flush_overlay_in_index.
  - by rewrite getitem_state.
  - unfold delitem.
    destruct (OrderedDict.mem k (_dict st)) eqn:Hk; simpl; [|done].
    intros k' [b' Hp]. simpl in Hp. unfold contains. simpl.
    destruct (decide (k = k')) as [<-|Hne].
    { by rewrite Hp in Hr. }
    unfold OrderedDict.mem. rewrite od_get_del_ne by done.
    apply Ho. by exists b'.
  - by apply flush_overlay_in_index.
  - unfold close. destruct (read_only st); simpl.
    { intros k Hk. by apply Ho. }
    pose proof (flush_overlay_in_index st Ho) as Ho'.
    destruct (flush st) as [[] st'|e st']; simpl in *; [|done].
    intros k Hk. by apply Ho'.
Qed.

Lemma run_overlay_in_index (ops : list op) (st : MmapDict) :
  overlay_in_index st -> no_pending_removed ops st = true ->
  overlay_in_index (run ops st).
Proof.
  revert st. induction ops as [|o ops IH]; intros st Ho Hr; [done|].
  simpl in Hr. apply andb_prop in Hr as [Hr Hrs].
  apply negb_true_iff in Hr. apply IH; [|done].
  by apply exec_overlay_in_index.
Qed.

(** In every state reached without removing a pending key, a key that is
    present in either layer, in the index or in the pending overlay, is
    refused by [put]: the call raises the duplicate-key exception and leaves
    the object and its file as they were, so that [get] answers for the key
    as it did before. *)
Lemma present_key_put_rejected (ops : list op) (st : MmapDict)
    (k : string) (v2 : value) :
  overlay_in_index st -> no_pending_removed ops st = true ->
  let st' := run ops st in
  contains st' k = true \/ pending st' k ->
  setitem st' k v2 = Raise DuplicateKeyError st'
  /\ getitem (state_of (setitem st' k v2)) k = getitem st' k.
Proof.
  intros Ho Hr. cbv zeta. intros Hk.
  pose proof (run_overlay_in_index ops st Ho Hr) as Ho'.
  assert (Hin : contains (run ops st) k = true).
  { destruct Hk as [Hk|Hk]; [done|by apply Ho']. }
  unfold contains in Hin. unfold setitem. by rewrite Hin.
Qed.

End Duplicates.

(** ** The index of a store in use *)

Lemma read_inside (a x b : bytes) (pos n : Z) :
  blen a <= pos -> 0 <= n -> pos + n <= blen a + blen x ->
  File.read pos n (a ++ x ++ b) = File.read (pos - blen a) n x.
Proof.
  intros Hp Hn Hx. unfold File.read, blen in *.
  destruct (Z.ltb_spec n 0); [lia|].
  replace (Z.to_nat pos) with (length a + Z.to_nat (pos - Z.of_nat (length a)))%nat
    by lia.
  rewrite drop_app_add.
  set (p := Z.to_nat (pos - Z.of_nat (length a))).
  rewrite drop_app_le by lia.
  rewrite take_app_le; [done|]. rewrite length_drop. lia.
Qed.

Lemma read_app_l (x b : bytes) (pos n : Z) :
  0 <= pos -> 0 <= n -> pos + n <= blen x ->
  File.read pos n (x ++ b) = File.read pos n x.
Proof.
  intros Hp Hn Hx.
  rewrite <- (app_nil_l (x ++ b)), read_inside;
    change (blen []) with 0; rewrite ?Z.sub_0_r; (done || lia).
Qed.

Section ChainFacts.
Implicit Types (d : list (string * entry)) (k : string).

Lemma od_set_fresh {V} k (v : V) (d : list (string * V)) :
  OrderedDict.mem k d = false -> OrderedDict.set k v d = d ++ [(k, v)].
Proof.
  unfold OrderedDict.mem. induction d as [|[k' v'] d IH]; simpl; [done|].
  case_decide; [done|]. intros Hk. by rewrite IH.
Qed.

Lemma od_keys_del_filter {V} k (d : list (string * V)) :
  OrderedDict.keys (OrderedDict.del k d)
  = filter (fun k' => k' <> k) (OrderedDict.keys d).
Proof.
  unfold OrderedDict.keys. induction d as [|[k' v'] d IH]; simpl; [done|].
  rewrite filter_cons. simpl. case_decide as Hk; subst.
  - rewrite decide_False by (intros Hn; by apply Hn). done.
  - rewrite decide_True by congruence. simpl. by rewrite IH.
Qed.

Lemma od_get_elem {V} k (v : V) (d : list (string * V)) :
  OrderedDict.get k d = Some v -> (k, v) ∈ d.
Proof.
  induction d as [|[k' v'] d IH]; simpl; [done|].
  case_decide; [intros [= ->]; subst; constructor|].
  intros Hg. apply elem_of_cons. right. by apply IH.
Qed.

Lemma od_elem_get {V} k (v : V) (d : list (string * V)) :
  NoDup (OrderedDict.keys d) -> (k, v) ∈ d -> OrderedDict.get k d = Some v.
Proof.
  unfold OrderedDict.keys. induction d as [|[k' v'] d IH]; simpl.
  { by intros _ ?%elem_of_nil. }
  intros [Hn Hd]%NoDup_cons [He|He]%elem_of_cons.
  - injection He as -> ->. by rewrite decide_True.
  - rewrite decide_False; [by apply IH|]. intros ->. apply Hn.
    apply list_elem_of_fmap. by exists (k', v).
Qed.

Lemma chained_mono lo lo' d : lo' <= lo -> chained lo d -> chained lo' d.
Proof. destruct d as [|[k [s z]] d]; simpl; [done|]. intros ? (?&?&?). split_and!; (lia || done). Qed.

Lemma chain_end_ge lo d : chained lo d -> lo <= chain_end lo d.
Proof.
  revert lo. induction d as [|[k [s z]] d IH]; intros lo; simpl; [lia|].
  intros (Hs & Hz & Hc). specialize (IH _ Hc). lia.
Qed.

Lemma chain_end_mono lo lo' d :
  lo' <= lo -> chain_end lo' d <= chain_end lo d.
Proof. destruct d as [|[k [s z]] d]; simpl; lia. Qed.

Lemma chained_del lo k d :
  chained lo d ->
  chained lo (OrderedDict.del k d)
  /\ chain_end lo (OrderedDict.del k d) <= chain_end lo d.
Proof.
  revert lo. induction d as [|[k' [s z]] d IH]; intros lo; simpl; [lia|].
  intros (Hs & Hz & Hc). destruct (IH _ Hc) as [Hc' He'].
  case_decide; simpl.
  - split; [apply chained_mono with (s + z); [lia|done]|].
    pose proof (chain_end_mono (s + z) lo (OrderedDict.del k d)). lia.
  - split; [done|lia].
Qed.

Lemma chained_app lo d k s z :
  chained lo d -> chain_end lo d <= s -> 0 <= z ->
  chained lo (d ++ [(k, (s, z))])
  /\ chain_end lo (d ++ [(k, (s, z))]) = s + z.
Proof.
  revert lo. induction d as [|[k' [s' z']] d IH]; intros lo; simpl.
  { intros _ ? ?. split; [split_and!; (lia || done)|done]. }
  intros (Hs & Hz & Hc) He Hz0. destruct (IH _ Hc He Hz0) as [Hc' He'].
  by split.
Qed.

(** An entry of a chained index lies between its start and its end. *)
Lemma chained_get lo k s z d :
  chained lo d -> OrderedDict.get k d = Some (s, z) ->
  lo <= s /\ 0 <= z /\ s + z <= chain_end lo d.
Proof.
  revert lo. induction d as [|[k' [s' z']] d IH]; intros lo; simpl; [done|].
  intros (Hs & Hz & Hc). pose proof (chain_end_ge _ _ Hc).
  case_decide.
  - intros [= -> ->]. lia.
  - intros Hg. destruct (IH _ Hc Hg) as (? & ? & ?). lia.
Qed.

(** Two keys of a chained index with distinct keys have records that do not
    overlap. *)
Lemma chained_apart lo k1 k2 s1 z1 s2 z2 d :
  chained lo d -> k1 <> k2 ->
  OrderedDict.get k1 d = Some (s1, z1) ->
  OrderedDict.get k2 d = Some (s2, z2) ->
  s1 + z1 <= s2 \/ s2 + z2 <= s1.
Proof.
  revert lo. induction d as [|[k' [s' z']] d IH]; intros lo; simpl; [done|].
  intros (Hs & Hz & Hc) Hne. repeat case_decide; subst; try done.
  - intros [= -> ->] Hg. destruct (chained_get _ _ _ _ _ Hc Hg). lia.
  - intros Hg [= -> ->]. destruct (chained_get _ _ _ _ _ Hc Hg). lia.
  - by apply (IH (s' + z')).
Qed.

End ChainFacts.

Section Soundness.
Context `{Serializers}.

Lemma disk_hwm_le (st : MmapDict) : disk_hwm st <= _max_position st.
Proof. unfold disk_hwm. pose proof (blen_nonneg (_write_value st)). lia. Qed.

Lemma create_sound (ro : bool) : in_budget (create ro) -> sound (create ro).
Proof.
  intros Hb. constructor; simpl.
  - by apply create_wf.
  - constructor.
  - done.
  - rewrite header_size_eq. reflexivity.
  - intros k start size. done.
Qed.

Lemma buffered_sound (st : MmapDict) (k : string) (b : bytes) :
  sound st -> contains st k = false -> sound (buffered st k b).
Proof.
  intros [Hwf Hk Hc He Hp] Hfresh. unfold contains in Hfresh.
  pose proof (blen_nonneg b) as Hb. pose proof (disk_hwm_le st) as Hle.
  assert (Hh : disk_hwm (buffered st k b) = disk_hwm st).
  { unfold disk_hwm. simpl. rewrite blen_app. lia. }
  constructor; simpl.
  - by apply buffered_wf.
  - rewrite od_set_fresh by done. unfold OrderedDict.keys. rewrite map_app. simpl.
    apply NoDup_app. split_and!; [done| |apply NoDup_singleton].
    intros k' Hk' ->%list_elem_of_singleton.
    apply od_mem_keys in Hk'. exact (eq_true_false_abs _ Hk' Hfresh).
  - rewrite od_set_fresh by done. by apply chained_app.
  - rewrite od_set_fresh by done.
    apply Z.eq_le_incl. apply chained_app; (done || lia).
  - intros k' start size. rewrite Hh. simpl.
    destruct (decide (k = k')) as [<-|Hne].
    + rewrite od_get_set_eq, lookup_insert_eq. intros [= <- <-].
      split_and!; [lia..|done|].
      rewrite <- (app_nil_r (_write_value st ++ b)), <- app_assoc.
      apply read_mid; [unfold disk_hwm; lia|done].
    + rewrite od_get_set_ne, lookup_insert_ne by done. intros Hg.
      specialize (Hp k' start size Hg).
      destruct (_new_dict st !! k') as [b'|]; [|done].
      destruct Hp as (Hs & Hm & Hz & Hr). split_and!; [done|lia|done|].
      rewrite read_app_l; [done|lia| |unfold disk_hwm in *; lia].
      subst size. apply blen_nonneg.
Qed.

Lemma after_flush_sound (st : MmapDict) (data tail : bytes) :
  sound st -> in_budget st ->
  blen data = disk_hwm st - header_size ->
  sound (after_flush st (flushed st data tail)).
Proof.
  intros [Hwf Hk Hc He Hp] Hb Hd.
  constructor; simpl; try done.
  - by apply after_flush_wf.
  - intros k start size Hg. simpl in *. rewrite lookup_empty.
    unfold disk_hwm at 1. simpl. change (blen []) with 0. rewrite Z.sub_0_r.
    specialize (Hp k start size Hg). pose proof (disk_hwm_le st).
    destruct (_new_dict st !! k); [tauto|lia].
Qed.

Lemma flush_sound (st : MmapDict) :
  sound st -> in_budget st -> sound (state_of (flush st)).
Proof.
  intros Hs Hb.
  destruct (flush_effect st (sound_wf _ Hs) Hb)
    as [[-> _]|[[-> _]|(data & tail & Hd & _ & _ & ->)]]; simpl; try done.
  by apply after_flush_sound.
Qed.

Lemma sound_same_store (st st' : MmapDict) :
  disk st' = disk st -> _max_position st' = _max_position st ->
  _write_value st' = _write_value st -> _new_dict st' = _new_dict st ->
  _dict st' = _dict st ->
  (forall m, _mmap st' = Some m -> _mmap st = Some m) ->
  sound st -> sound st'.
Proof.
  intros Hd Hm Hw Hn Hi Hmm [Hwf Hk Hc He Hp].
  assert (Hh : disk_hwm st' = disk_hwm st)
    by (unfold disk_hwm; by rewrite Hm, Hw).
  constructor; rewrite ?Hi, ?Hm; try done.
  - by apply (wf_same_file st).
  - intros k start size. rewrite Hi, Hn, Hh, Hm, Hw. apply Hp.
Qed.

Lemma delitem_sound (st : MmapDict) (k : string) :
  sound st -> sound (state_of (delitem st k)).
Proof.
  intros Hs. unfold delitem.
  destruct (OrderedDict.mem k (_dict st)); simpl; [|done].
  destruct Hs as [Hwf Hk Hc He Hp].
  destruct (chained_del header_size k (_dict st) Hc) as [Hc' He'].
  constructor; simpl; try done.
  - by apply (wf_same_file st).
  - rewrite od_keys_del_filter. by apply NoDup_filter.
  - lia.
  - intros k' start size. simpl.
    destruct (decide (k = k')) as [<-|Hne].
    + by rewrite od_get_del_eq.
    + rewrite od_get_del_ne by done. apply Hp.
Qed.

Lemma clear_sound (st : MmapDict) : sound st -> sound (state_of (clear st)).
Proof.
  intros [Hwf Hk Hc He Hp]. pose proof (wf_lo _ Hwf).
  pose proof (disk_hwm_le st).
  constructor; simpl.
  - by apply (wf_same_file st).
  - constructor.
  - done.
  - lia.
  - by intros k start size.
Qed.

(** Every call keeps a store in use sound. *)
Lemma exec_sound (o : op) (st : MmapDict) :
  sound st -> in_budget (exec o st) -> sound (exec o st).
Proof.
  intros Hs Hb. pose proof (sound_wf _ Hs) as Hwf.
  destruct o as [k v|k|k| |]; simpl in *.
  - unfold setitem in *.
    destruct (OrderedDict.mem k (_dict st)) eqn:Hk; [done|].
    destruct (marshal_dumps v) as [b|]; [|done].
    pose proof (buffered_sound st k b Hs Hk) as Hs1. cbv zeta in *.
    destruct (48000 <? blen (_write_value (buffered st k b))); [|done].
    apply flush_sound; [done|].
    apply flush_budget; [by destruct Hs1|done].
  - by rewrite getitem_state.
  - by apply delitem_sound.
  - by apply flush_sound, flush_budget.
  - unfold close in *. destruct (read_only st) eqn:Hro; simpl in *.
    { by apply (sound_same_store st). }
    destruct (flush_fields st Hwf) as [Hm Hd].
    assert (Hb' : in_budget st).
    { unfold in_budget in *. rewrite <- Hm, <- Hd. by destruct (flush st). }
    pose proof (flush_sound st Hs Hb') as Hs'.
    destruct (flush st) as [[] st'|e st']; simpl in *; [|done].
    by apply (sound_same_store st').
Qed.

Lemma run_sound (ops : list op) (st : MmapDict) :
  sound st -> budget_along ops st -> sound (run ops st).
Proof.
  revert st. induction ops as [|o ops IH]; intros st Hs Hb; [done|].
  destruct Hb as [Hb Hbs]. apply IH; [|done]. by apply exec_sound.
Qed.

End Soundness.

(** ** Stored values *)

Section StoredValues.
Context `{Serializers}.

Lemma od_mem_get {V} (k : string) (d : list (string * V)) :
  OrderedDict.mem k d = true -> exists v, OrderedDict.get k d = Some v.
Proof. unfold OrderedDict.mem. destruct (OrderedDict.get k d); eauto. done. Qed.

(** What [get] answers depends on the overlay, the index and the mapping
    only. *)
Lemma getitem_result_same (st st' : MmapDict) (k : string) :
  _new_dict st' !! k = _new_dict st !! k ->
  OrderedDict.get k (_dict st') = OrderedDict.get k (_dict st) ->
  _mmap st' = _mmap st ->
  result_of (getitem st' k) = result_of (getitem st k).
Proof.
  intros Hn Hd Hm. unfold getitem. rewrite Hn, Hd.
  destruct (_new_dict st !! k) as [b|].
  { by destruct (loads b). }
  destruct (OrderedDict.get k (_dict st)) as [[start size]|]; [|done].
  unfold mmap_read. rewrite Hm.
  by destruct (_ ≫= loads).
Qed.

Lemma read_flushed_data (st : MmapDict) (f2 data tail : bytes) (s z : Z) :
  wf st -> in_budget st ->
  disk st = HEADER ++ PyInt.format_d SIZE_BYTES (disk_hwm st)
                   ++ f2 ++ data ++ tail ->
  length f2 = SIZE_BYTES ->
  blen data = disk_hwm st - header_size ->
  header_size <= s -> 0 <= z -> s + z <= disk_hwm st ->
  File.read s z (flushed st data tail) = File.read s z (disk st).
Proof.
  intros Hwf [Hm Hl] Hd Hf2 Hda Hs Hz Hh.
  pose proof (wf_fits_hwm st Hwf) as Hfh.
  rewrite Hd. unfold flushed. cbv zeta.
  rewrite !(app_assoc HEADER), !(app_assoc (HEADER ++ _)).
  rewrite header_size_eq in *.
  rewrite !read_inside;
    rewrite ?blen_app, ?blen_HEADER, ?fits_field_blen by done;
    unfold blen in *; rewrite ?Hf2; unfold SIZE_BYTES; try lia.
  done.
Qed.

Lemma read_flushed_buffer (st : MmapDict) (data tail : bytes) (s z : Z) :
  in_budget st ->
  blen data = disk_hwm st - header_size ->
  disk_hwm st <= s -> 0 <= z -> s + z <= _max_position st ->
  File.read s z (flushed st data tail)
  = File.read (s - disk_hwm st) z (_write_value st).
Proof.
  intros [Hm Hl] Hda Hs Hz Hh. unfold flushed. cbv zeta.
  set (blob := pickle_dumps (_dict st)) in *.
  set (h := PyInt.format_d SIZE_BYTES (_max_position st)) in *.
  set (l := PyInt.format_d SIZE_BYTES (blen blob)) in *.
  replace (HEADER ++ h ++ l ++ data ++ _write_value st ++ blob
             ++ drop (length blob) (drop (length (_write_value st)) tail))
    with ((HEADER ++ h ++ l ++ data) ++ _write_value st ++ blob
             ++ drop (length blob) (drop (length (_write_value st)) tail))
    by (by rewrite <- !app_assoc).
  assert (Hp : blen (HEADER ++ h ++ l ++ data) = disk_hwm st).
  { rewrite !blen_app. subst h l. rewrite !fits_field_blen, Hda by done.
    rewrite header_size_eq, blen_HEADER. lia. }
  rewrite read_inside; rewrite ?Hp; try lia; [done|].
  unfold disk_hwm in *. lia.
Qed.

(** A flush does not change what [get] answers for a key of the store. *)
Lemma flush_keeps_value (st : MmapDict) (k : string) :
  sound st -> in_budget st -> contains st k = true ->
  result_of (getitem (state_of (flush st)) k) = result_of (getitem st k).
Proof.
  intros Hs Hb Hk. pose proof (sound_wf _ Hs) as Hwf.
  destruct (read_only st) eqn:Hro.
  { unfold flush. by rewrite Hro. }
  destruct (_mmap st) as [m|] eqn:Hm.
  2:{ unfold flush. by rewrite Hro, Hm. }
  destruct (flush_wf st Hwf Hb Hro) as (f2 & data & tail & Hd & Hf2 & Hda & ->).
  { by rewrite Hm. }
  simpl state_of. unfold contains in Hk.
  destruct (od_mem_get _ _ Hk) as [[s z] Hg].
  destruct (chained_get _ _ _ _ _ (sound_chain _ Hs) Hg) as (Hs1 & Hz & _).
  pose proof (sound_pending _ Hs k s z Hg) as Hp.
  pose proof (flushed_length st data tail Hb Hda) as Hlen.
  pose proof (wf_hi _ Hwf) as Hhi. pose proof (disk_hwm_le st) as Hle.
  rewrite header_size_eq in Hs1.
  unfold getitem at 1. simpl _new_dict. rewrite lookup_empty.
  simpl _dict. rewrite Hg. unfold mmap_read. simpl _mmap.
  unfold getitem. rewrite Hg.
  destruct (_new_dict st !! k) as [b|].
  - destruct Hp as (Hlo & Hup & -> & Hr).
    destruct (Z.ltb_spec s 0); [lia|].
    destruct (Z.ltb_spec (blen (flushed st data tail)) s); [lia|].
    simpl. rewrite read_flushed_buffer, Hr by (done || lia).
    by destruct (loads b).
  - unfold mmap_read. rewrite Hm. rewrite (wf_mmap _ Hwf m Hm).
    destruct (Z.ltb_spec s 0); [lia|].
    destruct (Z.ltb_spec (blen (flushed st data tail)) s); [lia|].
    destruct (Z.ltb_spec (blen (disk st)) s); [lia|]. simpl.
    rewrite (read_flushed_data st f2 data tail)
      by (rewrite ?header_size_eq; done || lia).
    by destruct (loads _).
Qed.

Lemma keeps_key_exec (k : string) (o : op) (st : MmapDict) :
  sound st -> in_budget (exec o st) ->
  keeps_key k o = true -> contains st k = true ->
  contains (exec o st) k = true
  /\ result_of (getitem (exec o st) k) = result_of (getitem st k).
Proof.
  intros Hs Hb Ho Hk. destruct o as [k' v'|k'|k'| |]; simpl in *; try done.
  - unfold setitem in *.
    destruct (OrderedDict.mem k' (_dict st)) eqn:Hk'; [done|].
    destruct (marshal_dumps v') as [b|]; [|done]. cbv zeta in *.
    assert (Hne : k' <> k).
    { intros ->. unfold contains in Hk. congruence. }
    assert (Hk1 : contains (buffered st k' b) k = true).
    { unfold contains. simpl. by apply od_mem_set. }
    assert (Hv1 : result_of (getitem (buffered st k' b) k)
                  = result_of (getitem st k)).
    { apply getitem_result_same; simpl; [|by apply od_get_set_ne|done].
      by rewrite lookup_insert_ne. }
    pose proof (buffered_sound st k' b Hs Hk') as Hs1.
    destruct (48000 <? blen (_write_value (buffered st k' b))); [|done].
    pose proof (flush_budget _ (sound_wf _ Hs1) Hb) as Hb1.
    split.
    + unfold contains in *.
      by destruct (flush_fields _ (sound_wf _ Hs1)) as [_ ->].
    + by rewrite flush_keeps_value.
  - by rewrite getitem_state.
  - apply negb_true_iff, bool_decide_eq_false in Ho.
    unfold delitem, contains in *.
    destruct (OrderedDict.mem k' (_dict st)); simpl; [|done].
    split.
    + unfold OrderedDict.mem in *. by rewrite od_get_del_ne.
    + apply getitem_result_same; simpl; [done|by apply od_get_del_ne|done].
  - pose proof (flush_budget _ (sound_wf _ Hs) Hb) as Hb1. split.
    + unfold contains in *.
      by destruct (flush_fields _ (sound_wf _ Hs)) as [_ ->].
    + by apply flush_keeps_value.
Qed.

Lemma keeps_key_run (k : string) (ops : list op) (st : MmapDict) :
  sound st -> budget_along ops st ->
  forallb (keeps_key k) ops = true -> contains st k = true ->
  contains (run ops st) k = true
  /\ result_of (getitem (run ops st) k) = result_of (getitem st k).
Proof.
  revert st. induction ops as [|o ops IH]; intros st Hs Hb Ho Hk; [done|].
  simpl in Ho. apply andb_prop in Ho as [Ho Hos]. destruct Hb as [Hb Hbs].
  destruct (keeps_key_exec k o st Hs Hb Ho Hk) as [Hk1 Hv1].
  destruct (IH (exec o st)) as [Hk2 Hv2]; try done.
  { by apply exec_sound. }
  split; [done|]. simpl. by rewrite Hv2.
Qed.

Lemma result_of_getitem (st : MmapDict) (k : string) (r : exn + value) :
  result_of (getitem st k) = r -> getitem st k = of_result st r.
Proof.
  intros <-. pose proof (getitem_state st k) as Hst.
  destruct (getitem st k); simpl in *; by subst.
Qed.

(** X1. A stored value never changes: over any run of calls that does not
    remove the key and does not close the store, the key stays in the store
    and [get] keeps returning the value it returned before, whether the
    record is still pending or was flushed to the file in between. *)
Theorem stored_value_stable (k : string) (v : value) (ops : list op)
    (st : MmapDict) :
  sound st -> budget_along ops st ->
  forallb (keeps_key k) ops = true ->
  contains st k = true -> getitem st k = Ok v st ->
  contains (run ops st) k = true
  /\ getitem (run ops st) k = Ok v (run ops st).
Proof.
  intros Hs Hb Ho Hk Hv.
  destruct (keeps_key_run k ops st Hs Hb Ho Hk) as [Hk' Hv'].
  split; [done|]. rewrite Hv in Hv'. simpl in Hv'.
  by rewrite (result_of_getitem _ _ _ Hv').
Qed.

End StoredValues.

(** ** Puts, flushes and reopening *)

Section PutFlush.
Context `{Serializers}.

Lemma flush_dict (st : MmapDict) :
  _dict (state_of (flush st)) = _dict st
  /\ read_only (state_of (flush st)) = read_only st.
Proof.
  unfold flush. destruct (read_only st) eqn:Hro; [done|].
  destruct (_mmap st); [|done]. destruct (PyInt.int _) as [p|]; [|done].
  by destruct (p <? 0).
Qed.

Lemma flushed_data_new (st : MmapDict) (data tail : bytes) :
  in_budget st ->
  blen data = disk_hwm st - header_size ->
  data_region (_max_position st) (flushed st data tail)
  = data ++ _write_value st.
Proof.
  intros [Hm Hl] Hd. rewrite data_region_read.
  unfold flushed. cbv zeta.
  rewrite (app_assoc HEADER), (app_assoc (HEADER ++ _)).
  rewrite (app_assoc data).
  pose proof (blen_nonneg data). pose proof (blen_nonneg (_write_value st)).
  apply read_mid.
  - rewrite !blen_app, !fits_field_blen by done. reflexivity.
  - rewrite blen_app, Hd. unfold disk_hwm in *. lia.
Qed.

(** What a flush that goes through leaves. *)
Lemma flush_result (st : MmapDict) :
  sound st -> in_budget st -> read_only st = false -> is_Some (_mmap st) ->
  exists st',
    flush st = Ok tt st'
    /\ sound st'
    /\ read_only st' = false /\ _mmap st' = Some (disk st')
    /\ _dict st' = _dict st /\ _max_position st' = _max_position st
    /\ nothing_pending st' /\ synced st'
    /\ header_fields (disk st')
       = (Some (_max_position st), Some (blen (pickle_dumps (_dict st))))
    /\ data_region (_max_position st) (disk st')
       = data_region (disk_hwm st) (disk st) ++ _write_value st.
Proof.
  intros Hs Hb Hro Hmm. pose proof (sound_wf _ Hs) as Hwf.
  destruct (flush_effect st Hwf Hb)
    as [[_ ?]|[(_ & _ & Hn)|(data & tail & Hd & Hr & _ & ->)]].
  { congruence. }
  { rewrite Hn in Hmm. by destruct Hmm. }
  eexists. split; [done|]. simpl.
  assert (Hh : disk_hwm (after_flush st (flushed st data tail))
               = _max_position st).
  { unfold disk_hwm. simpl. change (blen []) with 0. lia. }
  split_and!; try done.
  - by apply after_flush_sound.
  - split.
    + simpl. by apply flushed_len.
    + rewrite Hh. simpl. by apply flushed_index.
  - unfold header_fields.
    by rewrite flushed_hwm, flushed_len, !int_format_d.
  - rewrite Hr. by apply flushed_data_new.
Qed.

(** What a [put] of a fresh key does on a mutable store whose mapping is
    open. *)
Lemma put_result (st : MmapDict) (k : string) (v : value) (b : bytes) :
  sound st -> read_only st = false -> is_Some (_mmap st) ->
  contains st k = false -> marshal_dumps v = Some b ->
  in_budget (buffered st k b) ->
  exists st',
    setitem st k v = Ok tt st'
    /\ sound st' /\ read_only st' = false /\ is_Some (_mmap st')
    /\ _dict st' = _dict (buffered st k b)
    /\ _max_position st' = _max_position st + blen b
    /\ result_of (getitem st' k) = loads b
    /\ (if 48000 <? blen (_write_value st ++ b)
        then flush (buffered st k b) = Ok tt st'
        else st' = buffered st k b).
Proof.
  intros Hs Hro Hmm Hk Hd Hb.
  pose proof (buffered_sound st k b Hs Hk) as Hs1.
  assert (Hg1 : result_of (getitem (buffered st k b) k) = loads b).
  { unfold getitem. simpl. rewrite lookup_insert_eq. by destruct (loads b). }
  unfold setitem, contains in *. rewrite Hk, Hd. cbv zeta.
  change (_write_value (buffered st k b)) with (_write_value st ++ b).
  destruct (48000 <? blen (_write_value st ++ b)).
  - destruct (flush_result (buffered st k b) Hs1 Hb Hro Hmm)
      as (st' & Hf & Hs' & Hro' & Hm' & Hd' & Hp' & _).
    exists st'. split_and!; try done; try (by rewrite Hm').
    rewrite <- Hg1.
    replace st' with (state_of (flush (buffered st k b)))
      by (by rewrite Hf).
    apply flush_keeps_value; try done.
    unfold contains, OrderedDict.mem. simpl. by rewrite od_get_set_eq.
  - by exists (buffered st k b).
Qed.

(** X2. Once [put] has returned, [get] returns the value put, whether or
    not the put or a later call flushed: the calls after the put may be any
    that do not remove the key and do not close the store. *)
Theorem put_then_get_across_flush (st : MmapDict) (k : string) (v : value)
    (b : bytes) (ops : list op) :
  sound st -> read_only st = false -> is_Some (_mmap st) ->
  contains st k = false ->
  marshal_dumps v = Some b -> marshal_loads b = Some v ->
  budget_along (Put k v :: ops) st ->
  forallb (keeps_key k) ops = true ->
  getitem (run (Put k v :: ops) st) k = Ok v (run (Put k v :: ops) st).
Proof.
  intros Hs Hro Hmm Hk Hd Hl [Hb Hbs] Ho.
  change (run (Put k v :: ops) st) with (run ops (exec (Put k v) st)).
  assert (Hb1 : in_budget (buffered st k b)).
  { simpl in Hb. unfold setitem, contains in *. rewrite Hk, Hd in Hb.
    cbv zeta in Hb.
    destruct (48000 <? _); [|done].
    apply flush_budget; [|done]. by apply buffered_wf, sound_wf. }
  destruct (put_result st k v b Hs Hro Hmm Hk Hd Hb1)
    as (st' & Hp & Hs' & _ & _ & Hd' & _ & Hg & _).
  assert (He : exec (Put k v) st = st') by (simpl; by rewrite Hp).
  rewrite He in *.
  destruct (keeps_key_run k ops st' Hs' Hbs Ho) as [_ Hv].
  { unfold contains, OrderedDict.mem. rewrite Hd'. simpl.
    by rewrite od_get_set_eq. }
  rewrite Hg in Hv. unfold loads in Hv. rewrite Hl in Hv.
  by rewrite (result_of_getitem _ _ _ Hv).
Qed.

(** X3. A put that takes the write buffer past 48000 bytes flushes by
    itself: when it returns nothing is pending, the file's header holds the
    new end of the data, and the data region is the old one followed by the
    buffered bytes and the bytes of the new record. *)
Theorem threshold_put_flushes (st : MmapDict) (k : string) (v : value)
    (b : bytes) :
  sound st -> read_only st = false -> is_Some (_mmap st) ->
  contains st k = false -> marshal_dumps v = Some b ->
  48000 < blen (_write_value st ++ b) ->
  in_budget (buffered st k b) ->
  exists st',
    setitem st k v = Ok tt st'
    /\ nothing_pending st'
    /\ contains st' k = true
    /\ fst (header_fields (disk st')) = Some (_max_position st + blen b)
    /\ data_region (_max_position st + blen b) (disk st')
       = data_region (disk_hwm st) (disk st) ++ _write_value st ++ b.
Proof.
  intros Hs Hro Hmm Hk Hd Hsz Hb.
  pose proof (buffered_sound st k b Hs Hk) as Hs1.
  destruct (flush_result (buffered st k b) Hs1 Hb Hro Hmm)
    as (st' & Hf & _ & _ & _ & Hd' & _ & Hn & _ & Hh & Hr).
  exists st'. split_and!; try done.
  - unfold setitem, contains in *. rewrite Hk, Hd. cbv zeta.
    by destruct (Z.ltb_spec 48000 (blen (_write_value (buffered st k b))));
      [|simpl in *; lia].
  - unfold contains, OrderedDict.mem. rewrite Hd'. simpl.
    by rewrite od_get_set_eq.
  - by rewrite Hh.
  - change (_max_position (buffered st k b))
      with (_max_position st + blen b) in Hr.
    rewrite Hr. simpl. f_equal. f_equal.
    unfold disk_hwm. simpl. rewrite blen_app. lia.
Qed.

(** X4. On a store opened read-only, a put that takes the write buffer past
    48000 bytes raises the read-only exception of the flush it sets off,
    after the record was entered in the index, the overlay and the buffer:
    the call fails and the key is in the store. *)
Theorem threshold_put_read_only (st : MmapDict) (k : string) (v : value)
    (b : bytes) :
  read_only st = true ->
  contains st k = false -> marshal_dumps v = Some b ->
  48000 < blen (_write_value st ++ b) ->
  setitem st k v = Raise ReadOnlyError (buffered st k b)
  /\ contains (buffered st k b) k = true
  /\ _new_dict (buffered st k b) !! k = Some b
  /\ disk (buffered st k b) = disk st.
Proof.
  intros Hro Hk Hd Hsz. split_and!.
  - unfold setitem, contains in *. rewrite Hk, Hd. cbv zeta.
    destruct (Z.ltb_spec 48000 (blen (_write_value (buffered st k b))));
      [|simpl in *; lia].
    unfold flush. simpl. by rewrite Hro.
  - unfold contains, OrderedDict.mem. simpl. by rewrite od_get_set_eq.
  - apply lookup_insert_eq.
  - done.
Qed.

(** X5. A flush that goes through appends the write buffer to the data
    region and nothing else to it, writes the end of the data and the length
    of the index into the header, leaves nothing pending and the file in
    step with the in-memory index. *)
Theorem flush_appends_buffer (st : MmapDict) :
  sound st -> in_budget st -> read_only st = false -> is_Some (_mmap st) ->
  exists st',
    flush st = Ok tt st'
    /\ nothing_pending st' /\ synced st'
    /\ _dict st' = _dict st
    /\ header_fields (disk st')
       = (Some (_max_position st), Some (blen (pickle_dumps (_dict st))))
    /\ data_region (_max_position st) (disk st')
       = data_region (disk_hwm st) (disk st) ++ _write_value st.
Proof.
  intros Hs Hb Hro Hmm.
  destruct (flush_result st Hs Hb Hro Hmm)
    as (st' & Hf & _ & _ & _ & Hd & _ & Hn & Hsy & Hh & Hr).
  exists st'. by split_and!.
Qed.

End PutFlush.

(** ** Keys, length and iteration *)

Section KeysFacts.
Context `{Serializers}.

Lemma od_length_del {V} (k : string) (d : list (string * V)) :
  NoDup (OrderedDict.keys d) -> OrderedDict.mem k d = true ->
  S (length (OrderedDict.del k d)) = length d.
Proof.
  unfold OrderedDict.mem, OrderedDict.keys.
  induction d as [|[k' v'] d IH]; simpl; [done|].
  intros [Hn Hd]%NoDup_cons. case_decide as Hk; subst.
  - intros _. f_equal.
    assert (Hg : OrderedDict.get k' d = None).
    { destruct (OrderedDict.get k' d) as [v|] eqn:Hg; [|done].
      exfalso. apply Hn. apply list_elem_of_fmap. exists (k', v).
      split; [done|]. by apply od_get_elem. }
    clear IH Hn. induction d as [|[k'' v''] d IH]; simpl in *; [done|].
    apply NoDup_cons in Hd as [_ Hd].
    case_decide; [done|]. simpl. f_equal. by apply IH.
  - intros Hm. simpl. f_equal. by apply IH.
Qed.

Lemma filter_fresh (k : string) (l : list string) :
  k ∉ l -> filter (fun k' => k' <> k) l = l.
Proof.
  induction l as [|x l IH]; [done|]. intros Hn.
  apply not_elem_of_cons in Hn as [Hx Hl].
  rewrite filter_cons, decide_True by congruence. by rewrite IH.
Qed.

(** X6. [keys()] is in insertion order: a put that goes through adds its
    key at the end (and [len()] grows by one), whether or not it flushes;
    removing a key deletes it from the list and keeps the order of the
    others, so that removing the key just put gives the list back. *)
Theorem keys_in_insertion_order (st : MmapDict) (k : string) (v : value)
    (b : bytes) :
  contains st k = false -> marshal_dumps v = Some b ->
  keys (exec (Put k v) st) = keys st ++ [k]
  /\ len (exec (Put k v) st) = S (len st)
  /\ (forall k', keys (exec (Remove k') st)
                 = filter (fun x => x <> k') (keys st))
  /\ keys (exec (Remove k) (exec (Put k v) st)) = keys st.
Proof.
  intros Hk Hd. unfold contains in Hk.
  assert (Hput : _dict (exec (Put k v) st)
                 = _dict st ++ [(k, (_max_position st, blen b))]).
  { simpl. unfold setitem. rewrite Hk, Hd. cbv zeta.
    rewrite <- (od_set_fresh k _ _ Hk).
    destruct (48000 <? _); [|done].
    by destruct (flush_dict (buffered st k b)) as [-> _]. }
  assert (Hrem : forall st' k', keys (exec (Remove k') st')
                 = filter (fun x => x <> k') (keys st')).
  { intros st' k'. simpl. unfold delitem, keys.
    destruct (OrderedDict.mem k' (_dict st')) eqn:Hm; simpl.
    - apply od_keys_del_filter.
    - symmetry. apply filter_fresh. intros Hin.
      apply (od_mem_keys k' (_dict st')) in Hin. by rewrite Hm in Hin. }
  assert (Hkeys : keys (exec (Put k v) st) = keys st ++ [k]).
  { unfold keys, OrderedDict.keys. by rewrite Hput, map_app. }
  split_and!; [done| |by intros k'|].
  - unfold len. rewrite Hput, length_app. simpl. lia.
  - rewrite Hrem, Hkeys, filter_app, filter_cons, decide_False,
      filter_nil, app_nil_r by (intros Hn; by apply Hn).
    apply filter_fresh. intros Hin.
    apply (od_mem_keys k (_dict st)) in Hin. by rewrite Hk in Hin.
Qed.

(** X7. In a store in use, removing a key that is there takes [len()] down
    by exactly one, and leaves the file, the write buffer and the end of
    the data as they are: nothing is reclaimed. *)
Theorem remove_decrements_len (st : MmapDict) (k : string) :
  sound st -> contains st k = true ->
  exists st',
    delitem st k = Ok tt st'
    /\ S (len st') = len st
    /\ contains st' k = false
    /\ disk st' = disk st /\ _write_value st' = _write_value st
    /\ _max_position st' = _max_position st.
Proof.
  intros Hs Hk. unfold contains in Hk.
  eexists. split; [unfold delitem; by rewrite Hk|]. simpl.
  split_and!; try done.
  - unfold len. simpl. apply od_length_del; [apply Hs|done].
  - unfold contains, OrderedDict.mem. simpl. by rewrite od_get_del_eq.
Qed.

Lemma iteritems_from_get (st : MmapDict) (it : list (string * entry))
    (l : list (string * value)) :
  NoDup (OrderedDict.keys (_dict st)) ->
  (forall e, e ∈ it -> e ∈ _dict st) ->
  iteritems_from st it = inr l ->
  forall k v, (k, v) ∈ l -> getitem st k = Ok v st.
Proof.
  intros Hn. revert l. induction it as [|[key [start size]] it IH];
    intros l Hin; simpl.
  { intros [= <-] k v ?%elem_of_nil. done. }
  assert (Hg : OrderedDict.get key (_dict st) = Some (start, size)).
  { apply od_elem_get; [done|]. apply Hin. constructor. }
  assert (Hv : forall b v, loads b = inr v ->
            match _new_dict st !! key with
            | Some b => inr b
            | None => mmap_read st start size
            end = inr b -> getitem st key = Ok v st).
  { intros b v Hl Hb. unfold getitem. rewrite Hg.
    destruct (_new_dict st !! key) as [b'|].
    - injection Hb as ->. by rewrite Hl.
    - rewrite Hb. simpl. by rewrite Hl. }
  destruct (match _new_dict st !! key with
            | Some b => inr b
            | None => mmap_read st start size
            end) as [e|b]; simpl; [done|].
  destruct (loads b) as [e|v0] eqn:Hl; simpl; [done|].
  destruct (iteritems_from st it) as [e|rest] eqn:Hr; simpl; [done|].
  intros [= <-] k v [He|He]%elem_of_cons.
  - injection He as -> ->. by apply (Hv b).
  - eapply IH; [|done|done]. intros e' He'. apply Hin. by constructor.
Qed.

Lemma iteritems_from_total (st : MmapDict) (it : list (string * entry)) :
  NoDup (OrderedDict.keys (_dict st)) ->
  (forall e, e ∈ it -> e ∈ _dict st) ->
  (forall k, k ∈ OrderedDict.keys it -> exists v, getitem st k = Ok v st) ->
  exists l, iteritems_from st it = inr l.
Proof.
  intros Hn. induction it as [|[key [start size]] it IH]; intros Hin Hall;
    simpl; [by eexists|].
  assert (Hg : OrderedDict.get key (_dict st) = Some (start, size)).
  { apply od_elem_get; [done|]. apply Hin. constructor. }
  destruct (Hall key) as [v Hv]; [constructor|].
  destruct IH as [rest ->].
  { intros e' He'. apply Hin. by constructor. }
  { intros k' Hk'. apply Hall. by constructor. }
  unfold getitem in Hv. rewrite Hg in Hv.
  destruct (_new_dict st !! key) as [b|].
  - simpl. destruct (loads b); [done|]. simpl. by eexists.
  - destruct (mmap_read st start size) as [e|b]; [done|]. simpl in *.
    destruct (loads b); [done|]. simpl. by eexists.
Qed.

(** X8. The iteration agrees with [get]: when [iteritems()] runs to its
    end it yields the keys of [keys()] in their order, each with the value
    [get] returns for it; and it runs to its end when [get] returns for
    every key. *)
Theorem iteritems_agrees_with_get (st : MmapDict) :
  NoDup (keys st) ->
  (forall l, iteritems st = inr l ->
     map fst l = keys st
     /\ forall k v, (k, v) ∈ l -> getitem st k = Ok v st)
  /\ ((forall k, k ∈ keys st -> exists v, getitem st k = Ok v st) ->
      exists l, iteritems st = inr l).
Proof.
  intros Hn. split.
  - intros l Hl. split; [by apply (iteritems_from_keys st (_dict st))|].
    by apply (iteritems_from_get st (_dict st)).
  - intros Hall. by apply (iteritems_from_total st (_dict st)).
Qed.

(** X9. [clear()] empties the index and nothing else: afterwards [len()]
    is 0 and no key is in the store, every key can be put again, and the
    file, the write buffer and the end of the data are as before, so that
    the store stays sound and later records are appended behind the old
    ones. *)
Theorem clear_empties_index (st : MmapDict) :
  sound st ->
  exists st',
    clear st = Ok tt st'
    /\ sound st'
    /\ len st' = 0%nat /\ keys st' = []
    /\ (forall k, contains st' k = false)
    /\ (forall k v, setitem st' k v <> Raise DuplicateKeyError st')
    /\ disk st' = disk st /\ _write_value st' = _write_value st
    /\ _max_position st' = _max_position st.
Proof.
  intros Hs. eexists. split; [done|].
  split_and!; try done.
  - by apply (clear_sound st).
  - intros k v. unfold setitem. simpl.
    destruct (marshal_dumps v); [|done]. cbv zeta.
    destruct (48000 <? _); [|done].
    unfold flush. simpl. destruct (read_only st); [done|].
    destruct (_mmap st); [|done]. destruct (PyInt.int _) as [p|]; [|done].
    by destruct (p <? 0).
Qed.

End KeysFacts.

(** ** Records in the file *)

Section Records.
Context `{Serializers}.

(** X10. In every state of a store in use no key is listed twice, every
    index entry lies between the end of the header and the end of the
    data, the record of a key that is not pending lies in the data region
    of the file, and the records of two keys never overlap. *)
Theorem records_never_overlap (ops : list op) (st : MmapDict) :
  sound st -> budget_along ops st ->
  let st' := run ops st in
  NoDup (keys st')
  /\ (forall k s z,
        OrderedDict.get k (_dict st') = Some (s, z) ->
        header_size <= s /\ 0 <= z /\ s + z <= _max_position st'
        /\ (_new_dict st' !! k = None -> s + z <= disk_hwm st'))
  /\ (forall k1 k2 s1 z1 s2 z2,
        k1 <> k2 ->
        OrderedDict.get k1 (_dict st') = Some (s1, z1) ->
        OrderedDict.get k2 (_dict st') = Some (s2, z2) ->
        s1 + z1 <= s2 \/ s2 + z2 <= s1).
Proof.
  intros Hs Hb. cbv zeta.
  destruct (run_sound ops st Hs Hb) as [Hwf Hk Hc He Hp].
  split_and!; [done| |].
  - intros k s z Hg.
    destruct (chained_get _ _ _ _ _ Hc Hg) as (? & ? & ?).
    split_and!; [done|done|lia|].
    intros Hn. specialize (Hp k s z Hg). by rewrite Hn in Hp.
  - intros k1 k2 s1 z1 s2 z2 Hne Hg1 Hg2.
    by apply (chained_apart header_size k1 k2 s1 z1 s2 z2 (_dict (run ops st))).
Qed.

(** X11. After [close()] a mutable store is of no use: its mapping is
    closed, so [flush()] and a second [close()] raise, and so does [get]
    for every key of the store (the close has flushed them all). *)
Theorem closed_store_unusable (st : MmapDict) :
  sound st -> in_budget st -> read_only st = false -> is_Some (_mmap st) ->
  exists st',
    close st = Ok tt st'
    /\ _mmap st' = None /\ nothing_pending st'
    /\ flush st' = Raise ValueError st'
    /\ close st' = Raise ValueError st'
    /\ forall k, contains st' k = true ->
         getitem st' k = Raise ValueError st'.
Proof.
  intros Hs Hb Hro Hmm.
  destruct (flush_result st Hs Hb Hro Hmm)
    as (st1 & Hf & _ & Hro1 & _ & _ & _ & [Hw Hn] & _).
  eexists. split; [unfold close; by rewrite Hro, Hf|]. simpl.
  assert (Hfl : forall s, read_only s = false -> _mmap s = None ->
                flush s = Raise ValueError s).
  { intros s Hr Hm. unfold flush. by rewrite Hr, Hm. }
  split_and!; try done.
  - by apply Hfl.
  - unfold close. simpl. rewrite Hro1. by rewrite Hfl.
  - intros k Hk. unfold contains in Hk. simpl in Hk.
    destruct (od_mem_get _ _ Hk) as [[s z] Hg].
    unfold getitem. simpl. by rewrite Hn, lookup_empty, Hg.
Qed.

(** X12. Removing a key and putting it again is the way to replace a
    value: afterwards [get] returns the new value, [len()] is what it was,
    and the key has moved to the end of [keys()]. *)
Theorem remove_then_put_replaces (st : MmapDict) (k : string) (v2 : value)
    (b2 : bytes) :
  sound st -> read_only st = false -> is_Some (_mmap st) ->
  contains st k = true ->
  marshal_dumps v2 = Some b2 -> marshal_loads b2 = Some v2 ->
  budget_along [Remove k; Put k v2] st ->
  let st' := run [Remove k; Put k v2] st in
  getitem st' k = Ok v2 st'
  /\ len st' = len st
  /\ keys st' = filter (fun x => x <> k) (keys st) ++ [k].
Proof.
  intros Hs Hro Hmm Hk Hd Hl (_ & Hb & _). cbv zeta.
  change (run [Remove k; Put k v2] st)
    with (exec (Put k v2) (exec (Remove k) st)) in *.
  unfold contains in Hk.
  assert (He : exec (Remove k) st
               = {| read_only := read_only st;
                    _max_position := _max_position st;
                    _dict := OrderedDict.del k (_dict st);
                    _write_value := _write_value st;
                    _new_dict := _new_dict st;
                    _mmap := _mmap st; disk := disk st |}).
  { simpl. unfold delitem. by rewrite Hk. }
  pose proof (delitem_sound st k Hs) as Hs1.
  change (state_of (delitem st k)) with (exec (Remove k) st) in Hs1.
  set (s1 := exec (Remove k) st) in *.
  assert (Hk1 : contains s1 k = false).
  { rewrite He. unfold contains, OrderedDict.mem. simpl.
    by rewrite od_get_del_eq. }
  assert (Hro1 : read_only s1 = false) by (by rewrite He).
  assert (Hmm1 : is_Some (_mmap s1)) by (by rewrite He).
  assert (Hb1 : in_budget (buffered s1 k b2)).
  { simpl in Hb. unfold setitem, contains in *. rewrite Hk1, Hd in Hb.
    cbv zeta in Hb. destruct (48000 <? _); [|done].
    apply flush_budget; [|done]. by apply buffered_wf, sound_wf. }
  destruct (put_result s1 k v2 b2 Hs1 Hro1 Hmm1 Hk1 Hd Hb1)
    as (st' & Hp & _ & _ & _ & Hd' & _ & Hg & _).
  assert (He' : exec (Put k v2) s1 = st') by (simpl; by rewrite Hp).
  rewrite He'. unfold loads in Hg. rewrite Hl in Hg.
  assert (Hdict : _dict st' = OrderedDict.del k (_dict st)
                               ++ [(k, (_max_position s1, blen b2))]).
  { rewrite Hd'. simpl. rewrite od_set_fresh by done. by rewrite He. }
  split_and!.
  - by rewrite (result_of_getitem _ _ _ Hg).
  - unfold len. rewrite Hdict, length_app. simpl.
    rewrite <- (od_length_del k (_dict st)); [lia|apply Hs|done].
  - unfold keys, OrderedDict.keys. rewrite Hdict, map_app. simpl.
    f_equal. apply od_keys_del_filter.
Qed.


End Records.

(** ** Reopening *)

Section Reopening.
Context `{Serializers} `{!PickleLaws}.

Lemma init_flushed (st : MmapDict) (data tail : bytes) (ro : bool) :
  wf st -> in_budget st ->
  blen data = disk_hwm st - header_size ->
  init (Some (flushed st data tail)) ro
  = inr (with_mode ro (after_flush st (flushed st data tail))).
Proof.
  intros Hwf Hb Hd.
  pose proof (read_header_flushed st data tail Hwf Hb Hd) as Hr.
  pose proof (flushed_length st data tail Hb Hd) as Hlen.
  pose proof (wf_lo _ Hwf) as Hlo. pose proof (disk_hwm_le st) as Hle.
  rewrite header_size_eq in Hlo.
  destruct (flushed st data tail) as [|c f] eqn:Hf.
  { change (blen []) with 0 in Hlen. lia. }
  unfold init. by rewrite Hr.
Qed.

(** X14. What a flush has written is what a reopening finds: after a flush
    that went through, opening the file again, in either mode, gives the
    very object the flush left, but for the mode; so it has the same keys
    in the same order, and [get] returns for each key of the store what it
    returned before the flush. *)
Theorem reopen_after_flush (st : MmapDict) (ro : bool) :
  sound st -> in_budget st -> read_only st = false -> is_Some (_mmap st) ->
  exists st',
    flush st = Ok tt st'
    /\ init (Some (disk st')) ro = inr (with_mode ro st')
    /\ keys (with_mode ro st') = keys st
    /\ forall k, contains st k = true ->
         result_of (getitem (with_mode ro st') k) = result_of (getitem st k).
Proof.
  intros Hs Hb Hro Hmm. pose proof (sound_wf _ Hs) as Hwf.
  destruct (flush_effect st Hwf Hb)
    as [[_ ?]|[(_ & _ & Hn)|(data & tail & Hd & _ & _ & Hf)]].
  { congruence. }
  { rewrite Hn in Hmm. by destruct Hmm. }
  eexists. split; [exact Hf|]. simpl disk.
  split_and!; [by apply init_flushed|done|].
  intros k Hk. rewrite <- (flush_keeps_value st k Hs Hb Hk), Hf. simpl.
  by apply getitem_result_same.
Qed.

(** X15. Persistence: put a fresh key on a mutable store and close it;
    the file, opened again in either mode, gives a store with nothing
    pending, with the key at the end of its keys, and [get] returns the
    value put. *)
Theorem put_close_reopen_get (st : MmapDict) (k : string) (v : value)
    (b : bytes) (ro : bool) :
  sound st -> read_only st = false -> is_Some (_mmap st) ->
  contains st k = false ->
  marshal_dumps v = Some b -> marshal_loads b = Some v ->
  budget_along [Put k v; Close] st ->
  exists st',
    init (Some (disk (run [Put k v; Close] st))) ro = inr st'
    /\ getitem st' k = Ok v st'
    /\ keys st' = keys st ++ [k]
    /\ nothing_pending st' /\ read_only st' = ro.
Proof.
  intros Hs Hro Hmm Hk Hd Hl (Hb & Hbc & _).
  change (run [Put k v; Close] st)
    with (exec Close (exec (Put k v) st)) in *.
  assert (Hb1 : in_budget (buffered st k b)).
  { simpl in Hb. unfold setitem, contains in *. rewrite Hk, Hd in Hb.
    cbv zeta in Hb. destruct (48000 <? _); [|done].
    apply flush_budget; [|done]. by apply buffered_wf, sound_wf. }
  destruct (put_result st k v b Hs Hro Hmm Hk Hd Hb1)
    as (s1 & Hp & Hs1 & Hro1 & Hmm1 & Hd1 & _ & Hg & _).
  assert (He : exec (Put k v) st = s1) by (simpl; by rewrite Hp).
  rewrite He in *. pose proof (sound_wf _ Hs1) as Hwf1.
  destruct (flush_effect s1 Hwf1 Hb)
    as [[_ ?]|[(_ & _ & Hn)|(data & tail & Hda & _ & _ & Hf)]].
  { congruence. }
  { rewrite Hn in Hmm1. by destruct Hmm1. }
  assert (Hc : disk (exec Close s1) = flushed s1 data tail).
  { simpl. unfold close. by rewrite Hro1, Hf. }
  rewrite Hc, (init_flushed s1 data tail ro Hwf1 Hb Hda).
  eexists. split; [done|].
  assert (Hk1 : contains s1 k = true).
  { unfold contains, OrderedDict.mem. rewrite Hd1. simpl.
    by rewrite od_get_set_eq. }
  split_and!; try done.
  - apply (result_of_getitem _ _ (inr v)).
    transitivity (result_of (getitem (state_of (flush s1)) k)).
    { rewrite Hf. simpl. by apply getitem_result_same. }
    rewrite (flush_keeps_value s1 k Hs1 Hb Hk1), Hg.
    unfold loads. by rewrite Hl.
  - unfold keys, OrderedDict.keys. simpl. rewrite Hd1. simpl.
    unfold contains in Hk. by rewrite od_set_fresh, map_app.
Qed.

(** X16. A file that was just created opens again as the empty store: in
    either mode the reopened object is the created one, but for the
    mode. *)
Theorem reopen_created_file (ro : bool) :
  in_budget (create false) ->
  init None false = inr (create false)
  /\ init (Some []) false = inr (create false)
  /\ init (Some (disk (create false))) ro = inr (create ro)
  /\ sound (create ro).
Proof.
  intros Hb.
  assert (Hb' : in_budget (create ro)) by (by destruct ro).
  split_and!; [done|done| |by apply create_sound].
  simpl disk. rewrite (new_file_flushed false).
  rewrite init_flushed; [|by apply create_wf|done|done].
  unfold with_mode, after_flush. simpl.
  by rewrite <- (new_file_flushed false).
Qed.

End Reopening.

(** ** The reference codecs meet the interface *)

Lemma str_of_int_plain_tail (z : Z) :
  Forall (fun c => Ascii.eqb c ";" = false) (PyInt.str_of_int z).
Proof.
  unfold PyInt.str_of_int.
  destruct (Z.to_int z) as [d|d]; [|constructor; [reflexivity|]];
    (eapply Forall_impl; [apply uint_chars_plain|]; by intros c (_&_&_&?&_)).
Qed.

Lemma split_at_app (c : ascii) (a b : bytes) :
  Forall (fun x => Ascii.eqb x c = false) a ->
  Ref.split_at c (a ++ c :: b) = Some (a, b).
Proof.
  induction 1 as [|x a Hx _ IH]; simpl.
  - by rewrite Ascii.eqb_refl.
  - by rewrite Hx, IH.
Qed.

Lemma get_put_int (z : Z) (rest : bytes) :
  Ref.get_int (Ref.put_int z ++ rest) = Some (z, rest).
Proof.
  unfold Ref.get_int, Ref.put_int. rewrite <- app_assoc. simpl.
  rewrite split_at_app by apply str_of_int_plain_tail. simpl.
  by rewrite literal_str_of_int.
Qed.

Lemma get_put_entry (e : string * entry) (rest : bytes) :
  Ref.get_entry (Ref.put_entry e ++ rest) = Some (e, rest).
Proof.
  destruct e as [k [start size]]. unfold Ref.get_entry, Ref.put_entry.
  simpl fst. simpl snd. rewrite <- !app_assoc, get_put_int. simpl.
  set (s1 := of_str k ++ _).
  assert (Hs1 : blen (of_str k) <= blen s1).
  { subst s1. rewrite blen_app. pose proof (blen_nonneg (Ref.put_int start ++ Ref.put_int size ++ rest)). lia. }
  pose proof (blen_nonneg (of_str k)).
  destruct (Z.ltb_spec (blen (of_str k)) 0); [lia|].
  destruct (Z.ltb_spec (blen s1) (blen (of_str k))); [lia|]. simpl.
  unfold blen at 1 2. rewrite Nat2Z.id. subst s1.
  rewrite take_app_length, drop_app_length, !get_put_int. simpl.
  unfold of_str. rewrite string_of_list_ascii_of_string.
  by rewrite get_put_int.
Qed.

Lemma put_entry_head (e : string * entry) :
  exists c s, Ref.put_entry e = c :: s /\ Ascii.eqb c "." = false.
Proof.
  unfold Ref.put_entry, Ref.put_int, PyInt.str_of_int.
  pose proof (to_int_nonnil (blen (of_str (fst e)))) as Hnn.
  pose proof (blen_nonneg (of_str (fst e))) as Hge.
  destruct (Z.to_int _) as [d|d] eqn:Hd.
  - pose proof (uint_chars_plain d) as Hp.
    destruct (PyInt.uint_chars d) as [|c ds] eqn:E.
    + destruct d; simpl in E; congruence.
    + inversion Hp as [|? ? (_&_&_&_&Hdot) _]. simpl. eauto.
  - simpl. eauto.
Qed.

Lemma index_loads_dumps_fuel (d : list (string * entry)) (fuel : nat)
    (rest : bytes) :
  (length d < fuel)%nat ->
  Ref.index_loads_fuel fuel (concat (map Ref.put_entry d) ++ "."%char :: rest)
  = Some d.
Proof.
  revert fuel. induction d as [|e d IH]; intros [|fuel] Hf; simpl in *;
    try lia; [done|].
  destruct (put_entry_head e) as (c & s & He & Hc).
  rewrite <- app_assoc. rewrite He at 1. simpl. rewrite Hc.
  rewrite get_put_entry. simpl. rewrite IH by lia. done.
Qed.

Lemma index_dumps_length (d : list (string * entry)) :
  (length d < length (Ref.index_dumps d))%nat.
Proof.
  unfold Ref.index_dumps. rewrite length_app. simpl.
  cut (length d <= length (concat (map Ref.put_entry d)))%nat; [lia|].
  induction d as [|e d IH]; simpl; [lia|].
  destruct (put_entry_head e) as (c & s & -> & _).
  rewrite length_app. simpl. lia.
Qed.

Lemma ref_pickle_roundtrip (d : list (string * entry)) :
  Ref.index_loads (Ref.index_dumps d) = Some d.
Proof.
  unfold Ref.index_loads. pose proof (index_dumps_length d).
  unfold Ref.index_dumps in *. by apply index_loads_dumps_fuel.
Qed.

#[local] Instance ref_pickle_laws : @PickleLaws Ref.codec :=
  ref_pickle_roundtrip.

(** ** The claims on concrete stores *)

Section Concrete.
#[local] Existing Instance Ref.codec.
Import Examples.

Lemma fresh_wf : wf fresh.
Proof.
  constructor; try reflexivity; try (vm_compute; discriminate).
  intros m [= <-]. reflexivity.
Qed.

Lemma flush_writes_header_first_witness :
  wf one_pending /\ in_budget one_pending
  /\ flush_writes one_pending (disk_hwm one_pending)
     = [ (8, PyInt.format_d SIZE_BYTES 106);
         (56, PyInt.format_d SIZE_BYTES 10);
         (104, of_str "i7");
         (106, of_str "1;a104;2;.") ]
  /\ header_fields (cut_flush 3 one_pending) = (Some 106, Some 10).
Proof.
  assert (Hwf : wf one_pending).
  { constructor; try reflexivity; try (vm_compute; discriminate).
    intros m [= <-]. reflexivity. }
  assert (Hb : in_budget one_pending) by (split; reflexivity).
  destruct (flush_writes_header_first one_pending Hwf Hb) as (Hw & _ & Hh).
  split_and!; [exact Hwf|exact Hb|exact Hw|exact Hh].
Defined.

(** C1 (counterexample). With one insertion pending, the writes of [flush]
    do not start at the old end of the data but in the header; and the file
    cut off after the write of the data region has neither the header
    fields nor the index that were there before the flush. *)
Lemma flush_header_last_counterexample :
  ~ (map fst (flush_writes one_pending (disk_hwm one_pending))
     = [disk_hwm one_pending; _max_position one_pending; 8; 56])
  /\ ~ (header_fields (cut_flush 3 one_pending)
        = header_fields (disk one_pending)
        /\ persisted_index (cut_flush 3 one_pending)
           = persisted_index (disk one_pending)).
Proof.
  split.
  - vm_compute. discriminate.
  - intros [Hh _]. vm_compute in Hh. discriminate.
Qed.

(** C2 (the code at the failing input). On a store opened read-only on a
    populated file, [put] of a fresh key returns and records the key, where
    [flush] raises the read-only exception. *)
Theorem read_only_put_accepted :
  init (Some (disk populated)) true = inr reopened_ro
  /\ read_only reopened_ro = true
  /\ contains reopened_ro "b" = false
  /\ setitem reopened_ro "b" yes
     = Ok tt (buffered reopened_ro "b" (of_str "T"))
  /\ contains (buffered reopened_ro "b" (of_str "T")) "b" = true
  /\ flush reopened_ro = Raise ReadOnlyError reopened_ro.
Proof. split_and!; reflexivity. Qed.

(** C3 (the code at the failing input). A pending key is removed: [contains]
    is false afterwards, but [get] still returns the value. *)
Theorem removed_pending_key_still_answers :
  contains one_pending "a" = true
  /\ exists st',
       delitem one_pending "a" = Ok tt st'
       /\ contains st' "a" = false
       /\ getitem st' "a" = Ok seven st'.
Proof.
  split; [reflexivity|]. eexists. split_and!; reflexivity.
Qed.

(** C4 (counterexample). A key that was flushed, removed and inserted again
    is in the index persisted in the file and in the pending overlay; and a
    key of the in-memory index is in the overlay as long as it is pending. *)
Lemma persisted_pending_overlap_counterexample :
  ~ (forall D k, persisted_index (disk reinserted) = Some D ->
                 k ∈ OrderedDict.keys D -> ~ pending reinserted k)
  /\ ~ (forall k, contains reinserted k = true -> ~ pending reinserted k).
Proof.
  split; intros Hc.
  - apply (Hc [("a", (104, 2))] "a");
      [reflexivity|constructor|by eexists].
  - apply (Hc "a"); [reflexivity|by eexists].
Qed.

Lemma persisted_and_pending_disjoint_witness :
  @PickleLaws Ref.codec
  /\ wf fresh /\ disjoint_layers fresh
  /\ budget_along [Put "a" seven; Flush; Remove "a"; Put "b" yes] fresh
  /\ no_reput_along [Put "a" seven; Flush; Remove "a"; Put "b" yes] fresh
     = true
  /\ pending (run [Put "a" seven; Flush; Remove "a"; Put "b" yes] fresh) "b"
  /\ exists D,
       persisted_index
         (disk (run [Put "a" seven; Flush; Remove "a"; Put "b" yes] fresh))
       = Some D
       /\ "a" ∈ OrderedDict.keys D
       /\ forall k, k ∈ OrderedDict.keys D ->
            ~ pending (run [Put "a" seven; Flush; Remove "a"; Put "b" yes]
                           fresh) k.
Proof.
  assert (HD0 : disjoint_layers fresh).
  { exists []. split; [reflexivity|]. intros k Hk. by apply elem_of_nil in Hk. }
  assert (Hb : budget_along [Put "a" seven; Flush; Remove "a"; Put "b" yes]
                            fresh)
    by (repeat split; reflexivity).
  split_and!; [exact ref_pickle_laws|exact fresh_wf|exact HD0|exact Hb
              |reflexivity|by eexists|].
  destruct (persisted_and_pending_disjoint (H0 := ref_pickle_laws)
              [Put "a" seven; Flush; Remove "a"; Put "b" yes] fresh
              fresh_wf HD0 Hb eq_refl) as [(D & HD & Hkeys) _].
  exists D. split_and!; [exact HD| |exact Hkeys].
  vm_compute in HD. injection HD as <-. constructor.
Defined.


Lemma present_key_put_rejected_witness :
  overlay_in_index fresh
  /\ no_pending_removed [Put "a" seven; Flush; Put "b" yes; Remove "a"] fresh
     = true
  /\ pending (run [Put "a" seven; Flush; Put "b" yes; Remove "a"] fresh) "b"
  /\ setitem (run [Put "a" seven; Flush; Put "b" yes; Remove "a"] fresh)
             "b" seven
     = Raise DuplicateKeyError
         (run [Put "a" seven; Flush; Put "b" yes; Remove "a"] fresh).
Proof.
  assert (Ho : overlay_in_index fresh).
  { intros k [b Hb]. vm_compute in Hb. discriminate Hb. }
  assert (Hp : pending (run [Put "a" seven; Flush; Put "b" yes; Remove "a"]
                            fresh) "b") by (by eexists).
  split_and!; [exact Ho|reflexivity|exact Hp|].
  apply (present_key_put_rejected
           [Put "a" seven; Flush; Put "b" yes; Remove "a"] fresh "b" seven
           Ho eq_refl (or_intror Hp)).
Defined.

Lemma put_then_get_witness :
  getitem (run [Put "b" yes; Get "a"] (buffered fresh "a" (of_str "i7"))) "a"
  = Ok seven (run [Put "b" yes; Get "a"] (buffered fresh "a" (of_str "i7"))).
Proof.
  apply (put_then_get fresh "a" seven (of_str "i7") [Put "b" yes; Get "a"]);
    try reflexivity.
  - vm_compute. discriminate.
  - split; [|done]. intros b [= <-]. vm_compute. discriminate.
Defined.

Lemma hwm_never_decreases_witness :
  wf fresh
  /\ budget_along [Put "a" seven; Flush; Remove "a"; Put "b" yes; Close] fresh
  /\ disk_hwm fresh
     <= disk_hwm (run [Put "a" seven; Flush; Remove "a"; Put "b" yes; Close]
                      fresh)
  /\ data_region (disk_hwm populated)
       (disk (run [Remove "a"; Put "b" yes; Close] populated))
     = data_region (disk_hwm populated) (disk populated).
Proof.
  assert (Hb : budget_along
                 [Put "a" seven; Flush; Remove "a"; Put "b" yes; Close] fresh)
    by (repeat split; reflexivity).
  split_and!; [exact fresh_wf|exact Hb| |].
  - apply (hwm_never_decreases _ fresh fresh_wf Hb).
  - reflexivity.
Defined.

(** C9 (counterexample). A flushed key was removed, so nothing is pending;
    the flush that follows writes a new index and a new index length. *)
Lemma flush_rewrites_index_counterexample :
  ~ (read_only removed = false -> nothing_pending removed ->
     header_fields (disk (state_of (flush removed)))
     = header_fields (disk removed)
     /\ persisted_index (disk (state_of (flush removed)))
        = persisted_index (disk removed)).
Proof.
  intros Hc. destruct Hc as [Hh _]; [reflexivity|by split|].
  vm_compute in Hh. discriminate.
Qed.

Lemma flush_nothing_pending_noop_witness :
  wf populated /\ read_only populated = false /\ is_Some (_mmap populated)
  /\ nothing_pending populated /\ synced populated
  /\ flush populated = Ok tt populated.
Proof.
  assert (Hwf : wf populated).
  { constructor; try reflexivity; try (vm_compute; discriminate).
    intros m [= <-]. reflexivity. }
  assert (Hs : synced populated) by (split; reflexivity).
  assert (Hn : nothing_pending populated) by (split; reflexivity).
  assert (Hm : is_Some (_mmap populated)) by (by eexists).
  split_and!; [exact Hwf|reflexivity|exact Hm|exact Hn|exact Hs|].
  exact (flush_nothing_pending_noop populated Hwf eq_refl Hm Hn Hs).
Defined.

Lemma deleted_pending_key_still_read_witness :
  exists st',
    delitem (run [Put "b" yes; Get "a"] (buffered fresh "a" (of_str "i7"))) "a"
    = Ok tt st'
    /\ _new_dict st' !! "a" = Some (of_str "i7")
    /\ getitem st' "a" = Ok seven st'
    /\ contains st' "a" = false
    /\ "a" ∉ keys st'.
Proof.
  apply (deleted_pending_key_still_read fresh "a" seven (of_str "i7")
           [Put "b" yes; Get "a"]); try reflexivity.
  - vm_compute. discriminate.
  - split; [|done]. intros b [= <-]. vm_compute. discriminate.
Defined.

End Concrete.

(** ** The further properties on concrete stores *)

Section ConcreteMore.
#[local] Existing Instance Ref.codec.
Import Examples.

Lemma fresh_sound : sound fresh.
Proof.
  constructor.
  - constructor; try reflexivity; try (vm_compute; discriminate).
    intros m [= <-]. reflexivity.
  - constructor.
  - exact I.
  - vm_compute. discriminate.
  - intros k s z Hg. discriminate Hg.
Qed.

Lemma one_pending_sound : sound one_pending.
Proof.
  apply (run_sound [Put "a" seven] fresh fresh_sound).
  repeat split; reflexivity.
Qed.

Lemma populated_sound : sound populated.
Proof.
  apply (run_sound [Put "a" seven; Flush] fresh fresh_sound).
  repeat split; reflexivity.
Qed.

Lemma stored_value_stable_witness :
  budget_along [Put "b" yes; Flush; Get "a"; Remove "b"] one_pending
  /\ getitem one_pending "a" = Ok seven one_pending
  /\ getitem (run [Put "b" yes; Flush; Get "a"; Remove "b"] one_pending) "a"
     = Ok seven (run [Put "b" yes; Flush; Get "a"; Remove "b"] one_pending).
Proof.
  assert (Hb : budget_along [Put "b" yes; Flush; Get "a"; Remove "b"]
                            one_pending) by (repeat split; reflexivity).
  split_and!; [exact Hb|reflexivity|].
  apply (stored_value_stable "a" seven
           [Put "b" yes; Flush; Get "a"; Remove "b"] one_pending
           one_pending_sound Hb); reflexivity.
Defined.

Lemma put_then_get_across_flush_witness :
  getitem (run [Put "a" seven; Flush; Put "b" yes; Flush] fresh) "a"
  = Ok seven (run [Put "a" seven; Flush; Put "b" yes; Flush] fresh).
Proof.
  apply (put_then_get_across_flush fresh "a" seven (of_str "i7")
           [Flush; Put "b" yes; Flush] fresh_sound); try reflexivity.
  - by eexists.
  - repeat split; reflexivity.
Defined.

Lemma threshold_put_flushes_witness :
  48000 < blen (_write_value fresh ++ big_bytes)
  /\ exists st',
       setitem fresh "big" big = Ok tt st'
       /\ nothing_pending st' /\ contains st' "big" = true.
Proof.
  assert (Hsz : 48000 < blen (_write_value fresh ++ big_bytes))
    by (vm_compute; reflexivity).
  assert (Hb : in_budget (buffered fresh "big" big_bytes))
    by (split; vm_compute; reflexivity).
  assert (Hm : is_Some (_mmap fresh)) by (by eexists).
  split; [exact Hsz|].
  destruct (threshold_put_flushes fresh "big" big big_bytes fresh_sound
              eq_refl Hm eq_refl eq_refl Hsz Hb)
    as (st' & Hp & Hn & Hk & _).
  exists st'. split_and!; [exact Hp|exact Hn|exact Hk].
Defined.

Lemma threshold_put_read_only_witness :
  read_only reopened_ro = true
  /\ setitem reopened_ro "big" big
     = Raise ReadOnlyError (buffered reopened_ro "big" big_bytes).
Proof.
  split; [reflexivity|].
  apply (threshold_put_read_only reopened_ro "big" big big_bytes);
    try reflexivity.
Defined.

Lemma flush_appends_buffer_witness :
  in_budget one_pending
  /\ exists st',
       flush one_pending = Ok tt st'
       /\ nothing_pending st'
       /\ data_region (_max_position one_pending) (disk st')
          = data_region (disk_hwm one_pending) (disk one_pending)
            ++ _write_value one_pending.
Proof.
  assert (Hb : in_budget one_pending) by (split; reflexivity).
  assert (Hm : is_Some (_mmap one_pending)) by (by eexists).
  split; [exact Hb|].
  destruct (flush_appends_buffer one_pending one_pending_sound Hb eq_refl Hm)
    as (st' & Hf & Hn & _ & _ & _ & Hd).
  exists st'. split_and!; [exact Hf|exact Hn|exact Hd].
Defined.

Lemma keys_in_insertion_order_witness :
  contains one_pending "b" = false
  /\ keys (exec (Put "b" yes) one_pending) = keys one_pending ++ ["b"].
Proof.
  split; [reflexivity|].
  apply (keys_in_insertion_order one_pending "b" yes (of_str "T"));
    reflexivity.
Defined.

Lemma remove_decrements_len_witness :
  contains one_pending "a" = true
  /\ exists st',
       delitem one_pending "a" = Ok tt st' /\ S (len st') = len one_pending.
Proof.
  split; [reflexivity|].
  destruct (remove_decrements_len one_pending "a" one_pending_sound eq_refl)
    as (st' & Hd & Hl & _).
  exists st'. split; [exact Hd|exact Hl].
Defined.

Lemma iteritems_agrees_with_get_witness :
  NoDup (keys one_pending)
  /\ forall l, iteritems one_pending = inr l -> map fst l = keys one_pending.
Proof.
  assert (Hn : NoDup (keys one_pending)) by apply NoDup_singleton.
  split; [exact Hn|].
  intros l Hl.
  apply (proj1 (iteritems_agrees_with_get one_pending Hn) l Hl).
Defined.

Lemma clear_empties_index_witness :
  exists st', clear one_pending = Ok tt st' /\ len st' = 0%nat.
Proof.
  destruct (clear_empties_index one_pending one_pending_sound)
    as (st' & Hc & _ & Hl & _).
  exists st'. split; [exact Hc|exact Hl].
Defined.

Lemma records_never_overlap_witness :
  budget_along [Put "a" seven; Put "b" yes; Flush; Remove "a"] fresh
  /\ NoDup (keys (run [Put "a" seven; Put "b" yes; Flush; Remove "a"] fresh)).
Proof.
  assert (Hb : budget_along [Put "a" seven; Put "b" yes; Flush; Remove "a"]
                            fresh) by (repeat split; reflexivity).
  split; [exact Hb|].
  apply (records_never_overlap _ fresh fresh_sound Hb).
Defined.

Lemma closed_store_unusable_witness :
  in_budget one_pending
  /\ exists st',
       close one_pending = Ok tt st' /\ close st' = Raise ValueError st'.
Proof.
  assert (Hb : in_budget one_pending) by (split; reflexivity).
  assert (Hm : is_Some (_mmap one_pending)) by (by eexists).
  split; [exact Hb|].
  destruct (closed_store_unusable one_pending one_pending_sound Hb eq_refl Hm)
    as (st' & Hc & _ & _ & _ & Hc2 & _).
  exists st'. split; [exact Hc|exact Hc2].
Defined.

Lemma remove_then_put_replaces_witness :
  contains populated "a" = true
  /\ getitem (run [Remove "a"; Put "a" yes] populated) "a"
     = Ok yes (run [Remove "a"; Put "a" yes] populated).
Proof.
  split; [reflexivity|].
  apply (remove_then_put_replaces populated "a" yes (of_str "T")
           populated_sound); try reflexivity.
  - by eexists.
  - repeat split; reflexivity.
Defined.


Lemma reopen_after_flush_witness :
  in_budget one_pending
  /\ exists st',
       flush one_pending = Ok tt st'
       /\ init (Some (disk st')) true = inr (with_mode true st').
Proof.
  assert (Hb : in_budget one_pending) by (split; reflexivity).
  assert (Hm : is_Some (_mmap one_pending)) by (by eexists).
  split; [exact Hb|].
  destruct (reopen_after_flush one_pending true one_pending_sound Hb
              eq_refl Hm) as (st' & Hf & Hi & _).
  exists st'. split; [exact Hf|exact Hi].
Defined.

Lemma put_close_reopen_get_witness :
  budget_along [Put "a" seven; Close] fresh
  /\ exists st',
       init (Some (disk (run [Put "a" seven; Close] fresh))) true = inr st'
       /\ getitem st' "a" = Ok seven st'.
Proof.
  assert (Hb : budget_along [Put "a" seven; Close] fresh)
    by (repeat split; reflexivity).
  assert (Hm : is_Some (_mmap fresh)) by (by eexists).
  split; [exact Hb|].
  destruct (put_close_reopen_get fresh "a" seven (of_str "i7") true
              fresh_sound eq_refl Hm eq_refl eq_refl eq_refl Hb)
    as (st' & Hi & Hg & _).
  exists st'. split; [exact Hi|exact Hg].
Defined.

Lemma reopen_created_file_witness :
  in_budget (create false)
  /\ init (Some (disk (create false))) true = inr (create true).
Proof.
  assert (Hb : in_budget (create false)) by (split; reflexivity).
  split; [exact Hb|].
  apply (reopen_created_file true Hb).
Defined.

End ConcreteMore.
